(** * Peak matching and normalisation of [exploratory_analysis.py], and the
      autoencoder of [torch/ae.py]

    A shallow embedding of the Python sources.

    Numbers.  Python floats are embedded as exact rationals ([Q]): the
    development is about the control flow and the algebra of the scripts,
    not about rounding.  The one place where a statement is about the
    rounded values themselves is line 77 of
    [get_tic_normalized_amino_acid_values], which is embedded a second
    time on binary64 numbers
    ([get_tic_normalized_amino_acid_values_f64]).  A zero divisor is where the two kinds of floats
    of the scripts differ.  On Python floats [/] raises
    [ZeroDivisionError]: this is [truediv], the division of
    [find_closest_ion_mz_index].  (Were the axis made of numpy scalars,
    the quotient would be [inf] or [nan], which fail every tolerance test
    of that function, so that it would still end in an exception.)  On
    numpy arrays [/] does not raise and the quotient is [inf] or [nan]:
    this is [np_truediv], the division of
    [get_tic_normalized_amino_acid_values].

    Effects.  The functions print and raise; they are written in a small
    writer/error monad [M]: a value of [M A] is the text sent to the
    console together with how the call ended. *)

From Stdlib Require Import ZArith QArith Qabs List String Bool Lia Lqa.
From Stdlib Require Import DecimalString DecimalNat Ascii PrimFloat.
Import ListNotations.

Local Open Scope Z_scope.

(* ------------------------------------------------------------------ *)
(** ** Python runtime *)

Module Py.

(** The exceptions the embedded code can raise. *)
Inductive exn : Type :=
| ValueError (msg : string)
| IndexError
| ZeroDivisionError
| KeyError
| RuntimeError.

(** One argument of a [print] call. *)
Inductive value : Type :=
| VStr (s : string)
| VNum (q : Q).

(** A line on the console: the arguments of one [print] call. *)
Definition line : Type := list value.

(** How a call ends.  [OutOfFuel] is an artefact of the embedding of
    [while]: the loop is unrolled [fuel] times. *)
Inductive outcome (A : Type) : Type :=
| Returns (a : A)
| Raises (e : exn)
| OutOfFuel.
Arguments Returns {A} a.
Arguments Raises {A} e.
Arguments OutOfFuel {A}.

Definition M (A : Type) : Type := (list line * outcome A)%type.

Definition stdout {A} (m : M A) : list line := fst m.
Definition result {A} (m : M A) : outcome A := snd m.

Definition ret {A} (a : A) : M A := ([], Returns a).
Definition raise {A} (e : exn) : M A := ([], Raises e).
Definition out_of_fuel {A} : M A := ([], OutOfFuel).
Definition print (l : line) : M unit := ([l], Returns tt).

Definition bind {A B} (m : M A) (k : A -> M B) : M B :=
  match m with
  | (out, Returns a) => let (out', r) := k a in (out ++ out', r)
  | (out, Raises e) => (out, Raises e)
  | (out, OutOfFuel) => (out, OutOfFuel)
  end.

(** [len(l)] *)
Definition len {A} (l : list A) : Z := Z.of_nat (List.length l).

(** A sequence index [i] against a length [n]: the position it denotes,
    if any. *)
Definition norm_index (n i : Z) : option nat :=
  let j := if i <? 0 then n + i else i in
  if (0 <=? j) && (j <? n) then Some (Z.to_nat j) else None.

(** [l[i]] on a Python list: a negative index counts from the end, an
    index outside [-len(l) .. len(l)-1] raises [IndexError]. *)
Definition getitem {A} (l : list A) (i : Z) : M A :=
  match norm_index (len l) i with
  | Some j => match nth_error l j with
              | Some a => ret a
              | None => raise IndexError
              end
  | None => raise IndexError
  end.

(** Left-to-right traversal, as a [for] loop that appends. *)
Fixpoint mapM {A B} (f : A -> M B) (l : list A) : M (list B) :=
  match l with
  | [] => ret []
  | a :: l' => bind (f a) (fun b => bind (mapM f l') (fun bs => ret (b :: bs)))
  end.

(** [range(k)] *)
Definition range (k : Z) : list Z := map Z.of_nat (seq 0 (Z.to_nat k)).

(** [str(i)] for a natural number. *)
Definition str (i : nat) : string := NilEmpty.string_of_uint (Nat.to_uint i).

(** [x in l] and [l.index(x)] on a list of strings.  The text of the
    [ValueError] of [index] differs between CPython versions. *)
Definition contains (x : string) (l : list string) : bool :=
  existsb (String.eqb x) l.

Fixpoint index_from (l : list string) (x : string) (i : Z) : M Z :=
  match l with
  | [] => raise (ValueError "is not in list")
  | y :: l' => if String.eqb y x then ret i else index_from l' x (i + 1)
  end.

Definition index (l : list string) (x : string) : M Z := index_from l x 0.

(** [x / y] on floats. *)
Definition truediv (x y : Q) : M Q :=
  if Qeq_bool y 0 then raise ZeroDivisionError else ret (x / y)%Q.

(** [x < y] on floats. *)
Definition Qlt_bool (x y : Q) : bool := negb (Qle_bool y x).

(** Arithmetic on numpy scalars and arrays does not raise on a zero
    divisor: the quotient is [inf] or [nan].  [None] stands for such a
    non-finite value, and stays non-finite when multiplied. *)
Definition np_truediv (x y : Q) : option Q :=
  if Qeq_bool y 0 then None else Some (x / y)%Q.

Definition np_mul (x : option Q) (y : Q) : option Q :=
  option_map (fun v => (v * y)%Q) x.

(** A two-dimensional [numpy] array: [ncols] columns and its rows (each
    of length [ncols]). *)
Record ndarray : Type := mk_ndarray { ncols : Z; rows : list (list Q) }.

Definition check_index (n i : Z) : M nat :=
  match norm_index n i with
  | Some j => ret j
  | None => raise IndexError
  end.

(** [data[r, cols]] *)
Definition nd_row_cols (data : ndarray) (r : Z) (cols : list Z) : M (list Q) :=
  bind (getitem (rows data) r) (fun row =>
  bind (mapM (check_index (ncols data)) cols) (fun js =>
  ret (map (fun j => nth j row 0%Q) js))).

(** [data[:, cols]] *)
Definition nd_all_cols (data : ndarray) (cols : list Z) : M (list (list Q)) :=
  bind (mapM (check_index (ncols data)) cols) (fun js =>
  ret (map (fun row => map (fun j => nth j row 0%Q) js) (rows data))).

(** [numpy.sum] of a two-dimensional array. *)
Definition np_sum (a : list (list Q)) : Q :=
  fold_left Qplus (map (fun row => fold_left Qplus row 0%Q) a) 0%Q.

(** [numpy.where(numpy.array(names) == id)[0]] *)
Fixpoint where_from (names : list string) (id : string) (i : Z) : list Z :=
  match names with
  | [] => []
  | x :: names' =>
      if String.eqb x id then i :: where_from names' id (i + 1)
      else where_from names' id (i + 1)
  end.

Definition np_where (names : list string) (id : string) : list Z :=
  where_from names id 0.

(** [a // b] on integers ([Z.div] rounds towards minus infinity, as
    Python does). *)
Definition floordiv (a b : Z) : M Z :=
  if b =? 0 then raise ZeroDivisionError else ret (a / b).

End Py.

(** What the code uses of [pandas]: frames and series with their labels,
    and the length checks made when labels are assigned. *)
Module Pandas.
Import Py.

Inductive label : Type :=
| LStr (s : string)
| LInt (i : Z).

Definition label_eqb (a b : label) : bool :=
  match a, b with
  | LStr s, LStr t => String.eqb s t
  | LInt i, LInt j => Z.eqb i j
  | _, _ => false
  end.

Record DataFrame (A : Type) : Type := mk_frame
  { df_index : list label; df_columns : list label; df_values : list (list A) }.
Arguments mk_frame {A}.
Arguments df_index {A}.
Arguments df_columns {A}.
Arguments df_values {A}.

Record Series (A : Type) : Type := mk_series
  { s_index : list label; s_name : label; s_values : list A }.
Arguments mk_series {A}.
Arguments s_index {A}.
Arguments s_name {A}.
Arguments s_values {A}.

Definition range_index (k : Z) : list label := map LInt (range k).

(** [pandas.DataFrame(a)] for a two-dimensional array [a]. *)
Definition frame_of_ndarray (a : ndarray) : DataFrame Q :=
  mk_frame (range_index (len (rows a))) (range_index (ncols a)) (rows a).

(** [pandas.DataFrame(l)] for a flat list [l]: one column, or no column
    at all when [l] is empty. *)
Definition frame_of_list {A} (l : list A) : DataFrame A :=
  match l with
  | [] => mk_frame [] [] []
  | _ => mk_frame (range_index (len l)) [LInt 0] (map (fun x => [x]) l)
  end.

Definition length_mismatch (old new : nat) : string :=
  ("Length mismatch: Expected axis has " ++ str old ++
   " elements, new values have " ++ str new ++ " elements")%string.

(** [df.columns = labels] *)
Definition set_columns {A} (df : DataFrame A) (labels : list label)
  : M (DataFrame A) :=
  if Nat.eqb (List.length (df_columns df)) (List.length labels)
  then ret (mk_frame (df_index df) labels (df_values df))
  else raise (ValueError (length_mismatch (List.length (df_columns df))
                                          (List.length labels))).

(** [df.index = labels] *)
Definition set_index {A} (df : DataFrame A) (labels : list label)
  : M (DataFrame A) :=
  if Nat.eqb (List.length (df_index df)) (List.length labels)
  then ret (mk_frame labels (df_columns df) (df_values df))
  else raise (ValueError (length_mismatch (List.length (df_index df))
                                          (List.length labels))).

Fixpoint position (l : list label) (x : label) (i : nat) : option nat :=
  match l with
  | [] => None
  | y :: l' => if label_eqb y x then Some i else position l' x (S i)
  end.

(** [df[name]] *)
Definition column {A} (df : DataFrame A) (name : label) : M (Series A) :=
  match position (df_columns df) name 0 with
  | None => raise KeyError
  | Some j =>
      bind (mapM (fun row => match nth_error row j with
                             | Some v => ret v
                             | None => raise IndexError
                             end) (df_values df)) (fun vs =>
      ret (mk_series (df_index df) name vs))
  end.

(** [numpy.array(df)] *)
Definition to_ndarray (df : DataFrame Q) : ndarray :=
  mk_ndarray (len (df_columns df)) (df_values df).

End Pandas.

Import Py Pandas.

Declare Scope py_scope.
Delimit Scope py_scope with py.
Notation "x <- m ;; k" := (bind m (fun x => k))
  (at level 61, m at next level, right associativity) : py_scope.
Notation "m ;;; k" := (bind m (fun _ => k))
  (at level 61, right associativity) : py_scope.
Local Open Scope py_scope.

(* ------------------------------------------------------------------ *)
(** ** exploratory_analysis.py *)

Section ExploratoryAnalysis.

(** [src.constants] is not part of the sources at hand: its values are
    parameters of the development. *)
Variable allowed_ppm_error : Q.

(** The [while] loop of [find_closest_ion_mz_index], from the state
    [closest_index]; [fuel] bounds the number of times its condition is
    evaluated. *)
Fixpoint scan (fuel : nat) (mz_axis : list Q) (ion_mz : Q)
         (closest_index : Z) : M Z :=
  match fuel with
  | O => out_of_fuel
  | S fuel' =>
      x <- getitem mz_axis closest_index ;;
      if Qlt_bool x ion_mz && (closest_index + 1 <? len mz_axis)
      then scan fuel' mz_axis ion_mz (closest_index + 1)
      else ret closest_index
  end.

Definition no_ion_message : string :=
  "No ion within current ppm identified!".

Definition find_closest_ion_mz_index_fuel (fuel : nat)
           (mz_axis : list Q) (ion_mz : Q) : M Z :=
  closest_index <- scan fuel mz_axis ion_mz 0 ;;
  a <- getitem mz_axis (closest_index - 1) ;;
  d <- truediv (Qabs (a - ion_mz)) ion_mz ;;
  let previous_peak_ppm := (d * inject_Z (10 ^ 6))%Q in
  b <- getitem mz_axis closest_index ;;
  d' <- truediv (Qabs (b - ion_mz)) ion_mz ;;
  let next_peak_ppm := (d' * inject_Z (10 ^ 6))%Q in
  if Qle_bool previous_peak_ppm next_peak_ppm
     && Qle_bool previous_peak_ppm allowed_ppm_error
  then ret (closest_index - 1)
  else if Qlt_bool next_peak_ppm previous_peak_ppm
          && Qle_bool next_peak_ppm allowed_ppm_error
  then ret closest_index
  else
    print [VStr "ppms:"; VNum previous_peak_ppm; VNum next_peak_ppm] ;;;
    raise (ValueError no_ion_message).

(** The loop condition is evaluated at most [len(mz_axis)] times (once
    on the empty axis, where it raises): see [scan_fuel_enough]. *)
Definition find_closest_ion_mz_index (mz_axis : list Q) (ion_mz : Q) : M Z :=
  find_closest_ion_mz_index_fuel (S (List.length mz_axis)) mz_axis ion_mz.

Variable scaling_factor : Q.
Variable sharp : string.
Variable n : Z.

(** [amino_acids] is a list of pairs of which only the first component,
    the name, is used. *)
Variable aa_info : Type.
Variable amino_acids : list (string * aa_info).

(** [list(set(colnames))]: the order in which a Python set is iterated
    is not specified. *)
Variable list_set : list string -> list string.

Definition get_tic_normalized_amino_acid_values (data : ndarray)
           (colnames : list string) (aa_intensities : list (list (list Q)))
  : M (list (list (list (option Q)))) :=
  let experiment_ids := list_set colnames in
  mapM (fun i =>
    mapM (fun j =>
      let j_experiment_indices :=
        np_where colnames (nth (Z.to_nat j) experiment_ids ""%string) in
      aa_i <- getitem aa_intensities i ;;
      aa_ij <- getitem aa_i j ;;
      cols <- nd_all_cols data j_experiment_indices ;;
      let tic := np_sum cols in
      ret (map (fun v => np_mul (np_truediv v tic) scaling_factor) aa_ij))
      (range (len experiment_ids)))
    (range (len aa_intensities)).

Definition get_intensities_data_structure (data : ndarray)
           (colnames : list string) (aa_mz_indices : list Z)
  : M (list (list (list Q))) :=
  let experiment_ids := list_set colnames in
  mapM (fun mz_index =>
    mapM (fun id => nd_row_cols data mz_index (np_where colnames id))
         experiment_ids)
    aa_mz_indices.

(** [combat] of [src.utils.combat] is an external procedure: a frame
    of features by samples, a batch label per sample and an optional
    model in, an adjusted frame out. *)
Variable combat_model : Type.
Variable combat :
  DataFrame Q -> Series Z -> option combat_model -> M (DataFrame Q).

Definition flatten {A} (l : list (list A)) : list A :=
  flat_map (fun sublist => sublist) l.

(** Lines 89 to 99 and the arguments of the call of line 101 of
    [get_combat_normalized_amino_acid_values]: the frame and the batch
    labels handed to [combat]. *)
Definition combat_arguments (data : ndarray) (colnames : list string)
  : M (DataFrame Q * Series Z) :=
  let data := frame_of_ndarray data in
  let unique_cols :=
    map (fun i => (nth i colnames "" ++ sharp ++ str i)%string)
        (seq 0 (List.length colnames)) in
  data <- set_columns data (map LStr unique_cols) ;;
  groups <- floordiv (len colnames) n ;;
  let batches := flatten (map (fun i => [i; i; i]) (range groups)) in
  let batches := frame_of_list batches in
  batches <- set_columns batches [LStr "batch"] ;;
  batches <- set_index batches (map LStr unique_cols) ;;
  batch <- column batches (LStr "batch") ;;
  ret (data, batch).

Definition get_combat_normalized_amino_acid_values (data : ndarray)
           (colnames : list string) (aa_mz_indices : list Z)
  : M (list (list (list Q))) :=
  args <- combat_arguments data colnames ;;
  normalized_data <- combat (fst args) (snd args) None ;;
  get_intensities_data_structure (to_ndarray normalized_data) colnames
                                 aa_mz_indices.

Definition absent_message : string := "is not in ions names".

(** The [for] loop of [get_amino_acids_indices_in_data], from the state
    of its two accumulators. *)
Fixpoint aa_loop (ions_mzs : list Q) (ions_names : list string)
         (mz_axis : list Q) (todo : list (string * aa_info))
         (aa_mz_indices : list Z) (aa_names : list string)
  : M (list Z * list string) :=
  match todo with
  | [] => ret (aa_mz_indices, aa_names)
  | (name, _) :: todo' =>
      if contains name ions_names then
        aa_index <- index ions_names name ;;
        mz <- getitem ions_mzs aa_index ;;
        i <- find_closest_ion_mz_index mz_axis mz ;;
        aa_loop ions_mzs ions_names mz_axis todo'
                (aa_mz_indices ++ [i]) (aa_names ++ [name])
      else
        print [VStr name; VStr absent_message] ;;;
        aa_loop ions_mzs ions_names mz_axis todo' aa_mz_indices aa_names
  end.

Definition get_amino_acids_indices_in_data (ions_mzs : list Q)
           (ions_names : list string) (mz_axis : list Q)
  : M (list Z * list string) :=
  aa_loop ions_mzs ions_names mz_axis amino_acids [] [].

End ExploratoryAnalysis.

(* ------------------------------------------------------------------ *)
(** ** torch/ae.py *)

Module Torch.

(** A batch of feature vectors. *)
Definition tensor : Type := list (list Q).

(** [nn.Linear]: [y = x W^T + b] on every row [x] of the batch; a row
    whose length is not [in_features] is a shape error. *)
Record Linear : Type := mk_linear
  { in_features : nat; weight : list (list Q); bias : list Q }.

Definition dot (u v : list Q) : Q :=
  fold_left Qplus (map (fun p => (fst p * snd p)%Q) (combine u v)) 0%Q.

Definition linear (l : Linear) (x : tensor) : M tensor :=
  mapM (fun row =>
          if Nat.eqb (List.length row) (in_features l)
          then ret (map (fun wb => (dot row (fst wb) + snd wb)%Q)
                        (combine (weight l) (bias l)))
          else raise RuntimeError) x.

Definition Qmax (x y : Q) : Q := if Qle_bool x y then y else x.
Definition Qmin (x y : Q) : Q := if Qle_bool x y then x else y.

Definition elementwise (f : Q -> Q) (x : tensor) : tensor := map (map f) x.

(** [nn.LeakyReLU()], with its default slope 0.01:
    [max(0, x) + 0.01 * min(0, x)]. *)
Definition LeakyReLU : tensor -> tensor :=
  elementwise (fun x => (Qmax 0 x + (1 # 100) * Qmin 0 x)%Q).

Section Network.

(** The exponential is not a rational function: it is a parameter. *)
Variable exp : Q -> Q.

(** [nn.CELU()], with its default [alpha = 1]:
    [max(0, x) + min(0, alpha * (exp(x / alpha) - 1))]. *)
Definition CELU : tensor -> tensor :=
  elementwise (fun x => (Qmax 0 x + Qmin 0 (1 * (exp (x / 1) - 1)))%Q).

Record AE : Type := mk_AE { e1 : Linear; e2 : Linear; d1 : Linear; d2 : Linear }.

Definition encode (self : AE) (features : tensor) : M tensor :=
  encoded <- linear (e1 self) features ;;
  let encoded := LeakyReLU encoded in
  encoded <- linear (e2 self) encoded ;;
  let encoded := CELU encoded in
  ret encoded.

Definition decode (self : AE) (encoded : tensor) : M tensor :=
  decoded <- linear (d1 self) encoded ;;
  let decoded := LeakyReLU decoded in
  decoded <- linear (d2 self) decoded ;;
  let decoded := CELU decoded in
  ret decoded.

Definition forward (self : AE) (features : tensor) : M tensor :=
  encoded <- linear (e1 self) features ;;
  let encoded := LeakyReLU encoded in
  encoded <- linear (e2 self) encoded ;;
  let encoded := CELU encoded in
  decoded <- linear (d1 self) encoded ;;
  let decoded := LeakyReLU decoded in
  decoded <- linear (d2 self) decoded ;;
  let decoded := CELU decoded in
  ret decoded.

End Network.

End Torch.

(* ------------------------------------------------------------------ *)
(** ** Vocabulary of the statements *)

(** The element a Python index denotes (with a default for the indices
    that raise). *)
Definition py_nth (l : list Q) (i : Z) : Q :=
  nth (Z.to_nat (if i <? 0 then len l + i else i)) l 0%Q.

(** In the words of the specification: the first position of the axis
    whose entry is not less than the target ([len(axis)] when every entry
    is less). *)
Fixpoint first_not_less (axis : list Q) (t : Q) : nat :=
  match axis with
  | [] => O
  | x :: axis' => if Qlt_bool x t then S (first_not_less axis' t) else O
  end.

(** Where the loop stops: at that position, or at the last position of
    the axis when the former lies beyond it. *)
Definition scan_position (axis : list Q) (t : Q) : Z :=
  Z.min (Z.of_nat (first_not_less axis t)) (len axis - 1).

(** The relative error, in parts per million, of the axis entry [a]
    against the target [t], as lines 19 and 20 compute it. *)
Definition ppm (a t : Q) : Q := (Qabs (a - t) / t * inject_Z (10 ^ 6))%Q.

(** Lines 22 to 30, on the two errors and the scan position [c]. *)
Definition choose (allowed prev next : Q) (c : Z) : M Z :=
  if Qle_bool prev next && Qle_bool prev allowed then ret (c - 1)
  else if Qlt_bool next prev && Qle_bool next allowed then ret c
  else print [VStr "ppms:"; VNum prev; VNum next] ;;;
       raise (ValueError no_ion_message).

Fixpoint sortedb (l : list Q) : bool :=
  match l with
  | [] => true
  | x :: l' =>
      match l' with
      | [] => true
      | y :: _ => Qle_bool x y && sortedb l'
      end
  end.

(** An axis entry [a] is within the tolerance of the target [t]: its
    error is defined (the target is not zero) and at most the allowed
    one. *)
Definition within_tolerance (allowed a t : Q) : Prop :=
  ~ (t == 0)%Q /\ (ppm a t <= allowed)%Q.

(** The error raised by a failed lookup would carry the two candidate
    errors if they could be read off the exception. *)
Definition error_carries_ppms (allowed : Q) : Prop :=
  exists read : exn -> Q * Q,
  forall axis t e,
    axis <> [] -> ~ (t == 0)%Q ->
    result (find_closest_ion_mz_index allowed axis t) = Raises e ->
    (fst (read e) == ppm (py_nth axis (scan_position axis t - 1)) t)%Q
    /\ (snd (read e) == ppm (py_nth axis (scan_position axis t)) t)%Q.

(** The labels of line 95, three for each group. *)
Definition triples (indices : list Z) : list Z :=
  flatten (map (fun i => [i; i; i]) indices).

(** A name of the reference list is present in the parsed ion names. *)
Definition present (aa_info : Type) (ions_names : list string)
           (entry : string * aa_info) : bool :=
  contains (fst entry) ions_names.

(** What one present name contributes to the loop of
    [get_amino_acids_indices_in_data]: its index on the axis. *)
Definition lookup (allowed : Q) (ions_mzs : list Q) (ions_names : list string)
           (mz_axis : list Q) (name : string) : M Z :=
  aa_index <- index ions_names name ;;
  mz <- getitem ions_mzs aa_index ;;
  find_closest_ion_mz_index allowed mz_axis mz.

(* ------------------------------------------------------------------ *)
(** ** More of the two files *)

(** *** The labels read by [get_all_data_from_h5] *)

(** [s.replace(old, new)] for a non-empty [old]: the occurrences of [old]
    are found from left to right and do not overlap.  [skip] counts the
    characters of an occurrence that are still to be passed over. *)
Fixpoint replace_from (old new s : string) (skip : nat) : string :=
  match s with
  | EmptyString => EmptyString
  | String c s' =>
      match skip with
      | S k => replace_from old new s' k
      | O =>
          if String.prefix old s
          then (new ++ replace_from old new s' (String.length old - 1))%string
          else String c (replace_from old new s' 0)
      end
  end.

Definition replace (old new s : string) : string := replace_from old new s 0.

(** [s[0:-1]] *)
Fixpoint drop_last (s : string) : string :=
  match s with
  | EmptyString => EmptyString
  | String c s' =>
      match s' with
      | EmptyString => EmptyString
      | String _ _ => String c (drop_last s')
      end
  end.

(** Lines 113 and 118, on the text [str(name)] of an entry of the file:
    [str(name).replace('b\'', '')[0:-1]]. *)
Definition clean_label (text : string) : string :=
  drop_last (replace "b'" "" text).

(** Line 114, on the text [str(mz)], before [float] is applied:
    [str(mz).replace('b\'mz', '')[0:-1]]. *)
Definition clean_mz_label (text : string) : string :=
  drop_last (replace "b'mz" "" text).

(** The text holds no apostrophe. *)
Fixpoint no_quote (s : string) : bool :=
  match s with
  | EmptyString => true
  | String c s' => negb (Ascii.eqb c "'"%char) && no_quote s'
  end.

(** The last character of the text is [b]. *)
Fixpoint ends_with_b (s : string) : bool :=
  match s with
  | EmptyString => false
  | String c s' =>
      match s' with
      | EmptyString => Ascii.eqb c "b"%char
      | String _ _ => ends_with_b s'
      end
  end.

(** *** The names of the columns given to [combat] *)

(** Line 90 of [get_combat_normalized_amino_acid_values]. *)
Definition unique_cols (sharp : string) (colnames : list string) : list string :=
  map (fun i => (nth i colnames "" ++ sharp ++ str i)%string)
      (seq 0 (List.length colnames)).

(** A decimal digit. *)
Definition is_digit (c : ascii) : bool :=
  match c with
  | "0" | "1" | "2" | "3" | "4" | "5" | "6" | "7" | "8" | "9" => true
  | _ => false
  end%char.

(** The text is not empty and its last character is not a digit. *)
Fixpoint ends_with_non_digit (s : string) : bool :=
  match s with
  | EmptyString => false
  | String c s' =>
      match s' with
      | EmptyString => negb (is_digit c)
      | String _ _ => ends_with_non_digit s'
      end
  end.

(** *** Axes *)

(** The entries of the axis increase strictly. *)
Fixpoint increasingb (l : list Q) : bool :=
  match l with
  | [] => true
  | x :: l' =>
      match l' with
      | [] => true
      | y :: _ => Qlt_bool x y && increasingb l'
      end
  end.

(** *** The normalisation in float64 *)



Section TicFloat64.

Variable scaling_factor : float.
Variable list_set : list string -> list string.

(** [numpy.sum] of a two-dimensional array of float64: numpy adds the
    entries pairwise, in an order that depends on the size and the layout
    of the array, and the order matters to the rounded sum. *)
Variable np_sum_f64 : list (list float) -> float.


End TicFloat64.


(** *** Outcomes *)

(** A call that returns or raises [IndexError]. *)
Definition index_error_only {A} (m : M A) : Prop :=
  result m = Raises IndexError \/ exists a, result m = Returns a.

(** *** The construction of the autoencoder *)

Module TorchInit.
Import Torch.

(** A parameter of a module: its values, of one or two dimensions, and
    whether a gradient is required. *)
Inductive tensor_data : Type :=
| Vector (v : list Q)
| Matrix (m : list (list Q)).

Record Param : Type := mk_parameter
  { p_data : tensor_data; requires_grad : bool }.

(** [p.numel()] *)
Definition numel (p : Param) : nat :=
  match p_data p with
  | Vector v => List.length v
  | Matrix m => fold_left Nat.add (map (@List.length Q) m) O
  end.

Section Init.

(** The initial values [nn.Linear] draws at random: [initial_weight k o i]
    and [initial_bias k o] for the layer created [k]-th. *)
Variable initial_weight : nat -> nat -> nat -> Q.
Variable initial_bias : nat -> nat -> Q.

(** [nn.Linear(in_features=i, out_features=o)], created [k]-th: a weight
    of [o] rows and [i] columns and a bias of [o] entries. *)
Definition Linear_new (k in_f out_f : nat) : Linear :=
  mk_linear in_f
            (map (fun o => map (fun i => initial_weight k o i) (seq 0 in_f))
                 (seq 0 out_f))
            (map (fun o => initial_bias k o) (seq 0 out_f)).

(** [kwargs[key]] on the keyword arguments of a call. *)
Fixpoint kwarg (kwargs : list (string * nat)) (key : string) : M nat :=
  match kwargs with
  | [] => raise KeyError
  | (k, v) :: kwargs' => if String.eqb k key then ret v else kwarg kwargs' key
  end.

(** [AE.__init__] *)
Definition AE_init (kwargs : list (string * nat)) : M AE :=
  input_shape <- kwarg kwargs "input_shape" ;;
  latent_dim <- kwarg kwargs "latent_dim" ;;
  let e1 := Linear_new 0 input_shape latent_dim in
  latent_dim_in <- kwarg kwargs "latent_dim" ;;
  latent_dim_out <- kwarg kwargs "latent_dim" ;;
  let e2 := Linear_new 1 latent_dim_in latent_dim_out in
  latent_dim_in' <- kwarg kwargs "latent_dim" ;;
  latent_dim_out' <- kwarg kwargs "latent_dim" ;;
  let d1 := Linear_new 2 latent_dim_in' latent_dim_out' in
  latent_dim' <- kwarg kwargs "latent_dim" ;;
  input_shape' <- kwarg kwargs "input_shape" ;;
  let d2 := Linear_new 3 latent_dim' input_shape' in
  ret (mk_AE e1 e2 d1 d2).

End Init.

(** [self.parameters()]: the weight and the bias of each layer, in the
    order of their creation.  [nn.Linear] creates them with
    [requires_grad = True], which nothing in the file changes. *)
Definition parameters (self : AE) : list Param :=
  flat_map (fun l => [mk_parameter (Matrix (weight l)) true;
                      mk_parameter (Vector (bias l)) true])
           [e1 self; e2 self; d1 self; d2 self].

(** [AE.count_parameters] *)
Definition count_parameters (self : AE) : nat :=
  fold_left Nat.add (map numel (filter requires_grad (parameters self))) O.

End TorchInit.

(* ------------------------------------------------------------------ *)
(** * Properties *)

(* ------------------------------------------------------------------ *)
(** ** The monad *)

Lemma bind_ret_l {A B} (a : A) (k : A -> M B) : bind (ret a) k = k a.
Proof. unfold bind, ret. destruct (k a) as [out r]. reflexivity. Qed.

Lemma bind_assoc {A B C} (m : M A) (f : A -> M B) (g : B -> M C) :
  bind (bind m f) g = bind m (fun a => bind (f a) g).
Proof.
  destruct m as [out [a | e | ]]; simpl; try reflexivity.
  destruct (f a) as [out1 [b | e | ]]; simpl; try reflexivity.
  destruct (g b) as [out2 r]. now rewrite app_assoc.
Qed.

Lemma bind_ext {A B} (m : M A) (k k' : A -> M B) :
  (forall a, k a = k' a) -> bind m k = bind m k'.
Proof.
  intros H. destruct m as [out [a | e | ]]; simpl; try reflexivity.
  now rewrite H.
Qed.

Lemma result_bind_returns {A B} (m : M A) (k : A -> M B) (b : B) :
  result (bind m k) = Returns b ->
  exists a, result m = Returns a /\ result (k a) = Returns b.
Proof.
  destruct m as [out [a | e | ]]; simpl; try discriminate.
  intros H. exists a. split; [reflexivity | ].
  destruct (k a) as [out' r]. exact H.
Qed.

Lemma result_bind {A B} (m : M A) (k : A -> M B) (a : A) :
  result m = Returns a -> result (bind m k) = result (k a).
Proof.
  destruct m as [out r]; simpl. intros ->. now destruct (k a).
Qed.

Lemma len_cons {A} (a : A) (l : list A) : len (a :: l) = len l + 1.
Proof. unfold len. simpl List.length. lia. Qed.

Lemma len_nonneg {A} (l : list A) : 0 <= len l.
Proof. unfold len. lia. Qed.

Lemma getitem_in_range (l : list Q) (i : Z) :
  - len l <= i < len l -> getitem l i = ret (py_nth l i).
Proof.
  intros Hi. unfold getitem, norm_index, py_nth.
  set (j := if i <? 0 then len l + i else i).
  assert (Hj : 0 <= j < len l) by (subst j; destruct (Z.ltb_spec i 0); lia).
  replace ((0 <=? j) && (j <? len l)) with true
    by (symmetry; apply andb_true_iff; split; [apply Z.leb_le | apply Z.ltb_lt]; lia).
  destruct (nth_error l (Z.to_nat j)) as [a | ] eqn:E.
  - now rewrite (nth_error_nth _ _ 0%Q E).
  - apply nth_error_None in E. unfold len in Hj. lia.
Qed.

Lemma py_nth_In (l : list Q) (i : Z) :
  - len l <= i < len l -> In (py_nth l i) l.
Proof.
  intros Hi. unfold py_nth. apply nth_In.
  unfold len in *. destruct (Z.ltb_spec i 0); lia.
Qed.

Lemma getitem_middle {A} (pre suf : list A) (x : A) :
  getitem (pre ++ x :: suf) (len pre) = ret x.
Proof.
  unfold getitem, norm_index.
  assert (H0 : 0 <= len pre) by apply len_nonneg.
  assert (H1 : len pre < len (pre ++ x :: suf)).
  { unfold len. rewrite length_app. simpl List.length. lia. }
  replace (len pre <? 0) with false by (symmetry; apply Z.ltb_ge; lia).
  replace (0 <=? len pre) with true by (symmetry; apply Z.leb_le; lia).
  replace (len pre <? len (pre ++ x :: suf)) with true
    by (symmetry; apply Z.ltb_lt; lia).
  simpl. unfold len. rewrite Nat2Z.id, nth_error_app2, Nat.sub_diag by lia.
  reflexivity.
Qed.

(** ** The scan of [find_closest_ion_mz_index] *)

Lemma Qlt_bool_iff (x y : Q) : Qlt_bool x y = true <-> (x < y)%Q.
Proof.
  unfold Qlt_bool. rewrite negb_true_iff. split.
  - intros H. apply Qnot_le_lt. intros Hle.
    apply Qle_bool_iff in Hle. congruence.
  - intros H. destruct (Qle_bool y x) eqn:E; [ | reflexivity].
    apply Qle_bool_iff in E. exfalso. exact (Qlt_not_le _ _ H E).
Qed.

Lemma Qlt_bool_false_iff (x y : Q) : Qlt_bool x y = false <-> (y <= x)%Q.
Proof.
  unfold Qlt_bool. rewrite negb_false_iff. apply Qle_bool_iff.
Qed.

Lemma first_not_less_le (axis : list Q) (t : Q) :
  (first_not_less axis t <= List.length axis)%nat.
Proof.
  induction axis as [ | x axis IH]; simpl; [lia | ].
  destruct (Qlt_bool x t); lia.
Qed.

Lemma first_not_less_before (axis : list Q) (t : Q) (k : nat) :
  (k < first_not_less axis t)%nat -> (nth k axis 0 < t)%Q.
Proof.
  revert k. induction axis as [ | x axis IH]; simpl; intros k Hk; [lia | ].
  destruct (Qlt_bool x t) eqn:E; [ | lia].
  destruct k as [ | k]; [now apply Qlt_bool_iff | apply IH; lia].
Qed.

Lemma first_not_less_at (axis : list Q) (t : Q) :
  (first_not_less axis t < List.length axis)%nat ->
  (t <= nth (first_not_less axis t) axis 0)%Q.
Proof.
  induction axis as [ | x axis IH]; simpl; intros Hk; [lia | ].
  destruct (Qlt_bool x t) eqn:E.
  - apply IH. lia.
  - now apply Qlt_bool_false_iff.
Qed.

Lemma scan_from (suf : list Q) :
  forall (pre : list Q) (t : Q) (fuel : nat),
    suf <> [] -> (List.length suf <= fuel)%nat ->
    scan fuel (pre ++ suf) t (len pre) =
    ret (len pre + scan_position suf t).
Proof.
  induction suf as [ | x suf IH]; intros pre t fuel Hne Hfuel; [congruence | ].
  destruct fuel as [ | fuel]; [simpl in Hfuel; lia | ].
  simpl in Hfuel. cbn [scan]. rewrite getitem_middle, bind_ret_l.
  unfold scan_position. cbn [first_not_less]. rewrite len_cons.
  assert (Hlen : len (pre ++ x :: suf) = len pre + len suf + 1).
  { unfold len. rewrite length_app. simpl List.length. lia. }
  pose proof (len_nonneg suf) as Hs.
  destruct (Qlt_bool x t) eqn:E; cbn [andb].
  - destruct (Z.ltb_spec (len pre + 1) (len (pre ++ x :: suf))) as [Hlt | Hge].
    + assert (Hsuf : suf <> []).
      { intros ->. change (len (@nil Q)) with 0 in *. lia. }
      replace (pre ++ x :: suf) with ((pre ++ [x]) ++ suf)
        by (now rewrite <- app_assoc).
      replace (len pre + 1) with (len (pre ++ [x]))
        by (unfold len; rewrite length_app; simpl List.length; lia).
      rewrite IH by (auto; lia). f_equal. unfold scan_position.
      replace (len (pre ++ [x])) with (len pre + 1)
        by (unfold len; rewrite length_app; simpl List.length; lia).
      lia.
    + f_equal. lia.
  - f_equal. simpl Z.of_nat. lia.
Qed.

(** From position 0 the loop condition is evaluated at most [len(axis)]
    times. *)
Lemma scan_fuel_enough (axis : list Q) (t : Q) (fuel : nat) :
  axis <> [] -> (List.length axis <= fuel)%nat ->
  scan fuel axis t 0 = ret (scan_position axis t).
Proof.
  intros Hne Hfuel. exact (scan_from axis [] t fuel Hne Hfuel).
Qed.

Lemma scan_position_range (axis : list Q) (t : Q) :
  axis <> [] -> 0 <= scan_position axis t < len axis.
Proof.
  intros Hne. unfold scan_position.
  assert (0 < len axis) by (destruct axis; [congruence | rewrite len_cons; pose proof (len_nonneg axis); lia]).
  lia.
Qed.

(** ** The two candidates and the choice between them *)

Lemma find_closest_fuel_unfold (allowed : Q) (axis : list Q) (t : Q) (fuel : nat) :
  axis <> [] -> (List.length axis <= fuel)%nat -> Qeq_bool t 0 = false ->
  find_closest_ion_mz_index_fuel allowed fuel axis t =
  choose allowed (ppm (py_nth axis (scan_position axis t - 1)) t)
         (ppm (py_nth axis (scan_position axis t)) t) (scan_position axis t).
Proof.
  intros Hne Hfuel Ht. unfold find_closest_ion_mz_index_fuel.
  pose proof (scan_position_range axis t Hne) as Hc.
  rewrite scan_fuel_enough, bind_ret_l by assumption.
  rewrite !getitem_in_range by lia.
  unfold truediv. rewrite Ht, !bind_ret_l. reflexivity.
Qed.

Lemma find_closest_unfold (allowed : Q) (axis : list Q) (t : Q) :
  axis <> [] -> Qeq_bool t 0 = false ->
  find_closest_ion_mz_index allowed axis t =
  choose allowed (ppm (py_nth axis (scan_position axis t - 1)) t)
         (ppm (py_nth axis (scan_position axis t)) t) (scan_position axis t).
Proof.
  intros Hne Ht. unfold find_closest_ion_mz_index.
  apply find_closest_fuel_unfold; auto.
Qed.

Lemma find_closest_fuel_zero_target (allowed : Q) (axis : list Q) (t : Q) (fuel : nat) :
  axis <> [] -> (List.length axis <= fuel)%nat -> Qeq_bool t 0 = true ->
  find_closest_ion_mz_index_fuel allowed fuel axis t = raise ZeroDivisionError.
Proof.
  intros Hne Hfuel Ht. unfold find_closest_ion_mz_index_fuel.
  pose proof (scan_position_range axis t Hne) as Hc.
  rewrite scan_fuel_enough, bind_ret_l by assumption.
  rewrite getitem_in_range, bind_ret_l by lia.
  unfold truediv. rewrite Ht. reflexivity.
Qed.

Lemma find_closest_fuel_nil (allowed : Q) (t : Q) (fuel : nat) :
  find_closest_ion_mz_index_fuel allowed (S fuel) [] t = raise IndexError.
Proof. reflexivity. Qed.

(** The three ways [choose] can end. *)
Lemma choose_cases (allowed prev next : Q) (c : Z) :
  (choose allowed prev next c = ret (c - 1)
   /\ (prev <= next)%Q /\ (prev <= allowed)%Q)
  \/ (choose allowed prev next c = ret c
      /\ (next < prev)%Q /\ (next <= allowed)%Q)
  \/ (choose allowed prev next c =
        ([[VStr "ppms:"; VNum prev; VNum next]], Raises (ValueError no_ion_message))
      /\ (((prev <= next)%Q /\ ~ (prev <= allowed)%Q)
          \/ ((next < prev)%Q /\ ~ (next <= allowed)%Q))).
Proof.
  unfold choose, Qlt_bool.
  destruct (Qle_bool prev next) eqn:E1; cbn [negb andb].
  - apply Qle_bool_iff in E1.
    destruct (Qle_bool prev allowed) eqn:E2.
    + apply Qle_bool_iff in E2. now left.
    + right; right. split; [reflexivity | left]. split; [assumption | ].
      intros H. apply Qle_bool_iff in H. congruence.
  - assert (Hlt : (next < prev)%Q).
    { apply Qnot_le_lt. intros H. apply Qle_bool_iff in H. congruence. }
    destruct (Qle_bool next allowed) eqn:E4.
    + apply Qle_bool_iff in E4. right; left. now split.
    + right; right. split; [reflexivity | right]. split; [assumption | ].
      intros H. apply Qle_bool_iff in H. congruence.
Qed.

(** ** Sorted axes *)

Lemma sortedb_head (x : Q) (l : list Q) (k : nat) :
  sortedb (x :: l) = true -> (k < List.length l)%nat -> (x <= nth k l 0)%Q.
Proof.
  revert x k. induction l as [ | y l IH]; intros x k Hs Hk; [simpl in Hk; lia | ].
  cbn [sortedb] in Hs. apply andb_true_iff in Hs as [Hxy Hs].
  apply Qle_bool_iff in Hxy.
  destruct k as [ | k]; [exact Hxy | ].
  simpl nth. apply Qle_trans with y; [exact Hxy | ].
  apply IH; [exact Hs | simpl in Hk; lia].
Qed.

Lemma sortedb_tail (x : Q) (l : list Q) :
  sortedb (x :: l) = true -> sortedb l = true.
Proof.
  destruct l as [ | y l]; [reflexivity | ].
  cbn [sortedb]. intros H. now apply andb_true_iff in H as [_ H].
Qed.

Lemma sortedb_nth (l : list Q) :
  sortedb l = true ->
  forall i j, (i <= j < List.length l)%nat -> (nth i l 0 <= nth j l 0)%Q.
Proof.
  induction l as [ | x l IH]; intros Hs i j Hij; [simpl in Hij; lia | ].
  destruct i as [ | i]; destruct j as [ | j]; try lia.
  - apply Qle_refl.
  - simpl nth at 1. change (nth (S j) (x :: l) 0%Q) with (nth j l 0%Q).
    apply sortedb_head; [exact Hs | simpl in Hij; lia].
  - change (nth i l 0 <= nth j l 0)%Q.
    apply IH; [now apply sortedb_tail in Hs | simpl in Hij; lia].
Qed.

(** ** Errors in parts per million *)

Lemma ppm_monotone (a b t : Q) :
  (0 < t)%Q -> (Qabs (a - t) <= Qabs (b - t))%Q -> (ppm a t <= ppm b t)%Q.
Proof.
  intros Ht Hab. unfold ppm.
  apply Qmult_le_compat_r; [ | discriminate].
  unfold Qdiv. apply Qmult_le_compat_r; [exact Hab | ].
  apply Qlt_le_weak, Qinv_lt_0_compat, Ht.
Qed.

Lemma ppm_negative_target (a t : Q) : (t < 0)%Q -> (ppm a t <= 0)%Q.
Proof.
  intros Ht. unfold ppm.
  assert (H0 : (0 <= Qabs (a - t))%Q) by apply Qabs_nonneg.
  assert (Hi : (/ t < 0)%Q).
  { assert (H := Qinv_lt_0_compat (- t)).
    assert (Hn : (0 < - t)%Q) by lra.
    specialize (H Hn).
    assert (E : (/ - t == - / t)%Q) by (field; lra).
    rewrite E in H. lra. }
  assert (H1 : (Qabs (a - t) / t <= 0)%Q).
  { unfold Qdiv. setoid_replace 0%Q with (0 * / t)%Q by ring.
    assert (H2 : (- (Qabs (a - t) * / t) == Qabs (a - t) * (- / t))%Q) by ring.
    assert (H3 : (0 <= Qabs (a - t) * (- / t))%Q).
    { apply Qmult_le_0_compat; [exact H0 | lra]. }
    lra. }
  assert (H4 : (0 <= inject_Z (10 ^ 6))%Q) by discriminate.
  assert (H5 : (0 <= (- (Qabs (a - t) / t)) * inject_Z (10 ^ 6))%Q).
  { apply Qmult_le_0_compat; [lra | exact H4]. }
  assert (H6 : ((- (Qabs (a - t) / t)) * inject_Z (10 ^ 6)
                == - (Qabs (a - t) / t * inject_Z (10 ^ 6)))%Q) by ring.
  lra.
Qed.

(** On a sorted axis one of the two candidates is at least as close to
    the target as any entry of the axis. *)
Lemma nearest_candidate (axis : list Q) (t : Q) (k : nat) :
  sortedb axis = true -> (k < List.length axis)%nat ->
  (Qabs (py_nth axis (scan_position axis t) - t) <= Qabs (nth k axis 0 - t))%Q
  \/ (Qabs (py_nth axis (scan_position axis t - 1) - t) <= Qabs (nth k axis 0 - t))%Q.
Proof.
  intros Hs Hk.
  assert (Hne : axis <> []) by (intros ->; simpl in Hk; lia).
  pose proof (scan_position_range axis t Hne) as Hc.
  pose proof (first_not_less_le axis t) as Hf.
  unfold scan_position in *. unfold len in *.
  set (f := first_not_less axis t) in *.
  destruct (Z.lt_ge_cases (Z.of_nat k) (Z.min (Z.of_nat f) (Z.of_nat (List.length axis) - 1)))
    as [Hlt | Hge].
  - right. unfold py_nth.
    set (c := Z.min (Z.of_nat f) (Z.of_nat (List.length axis) - 1)) in *.
    replace (c - 1 <? 0) with false by (symmetry; apply Z.ltb_ge; lia).
    assert (H1 : (nth (Z.to_nat (c - 1)) axis 0 < t)%Q).
    { apply first_not_less_before. fold f. lia. }
    assert (H2 : (nth k axis 0 <= nth (Z.to_nat (c - 1)) axis 0)%Q).
    { apply sortedb_nth; [exact Hs | lia]. }
    rewrite (Qabs_neg (nth (Z.to_nat (c - 1)) axis 0%Q - t)%Q) by lra.
    rewrite (Qabs_neg (nth k axis 0%Q - t)%Q) by lra. lra.
  - left. unfold py_nth.
    set (c := Z.min (Z.of_nat f) (Z.of_nat (List.length axis) - 1)) in *.
    replace (c <? 0) with false by (symmetry; apply Z.ltb_ge; lia).
    destruct (Nat.lt_ge_cases f (List.length axis)) as [Hin | Hout].
    + assert (Hcf : Z.to_nat c = f) by lia.
      rewrite Hcf.
      assert (H1 : (t <= nth f axis 0)%Q) by (apply first_not_less_at; exact Hin).
      assert (H2 : (nth f axis 0 <= nth k axis 0)%Q).
      { apply sortedb_nth; [exact Hs | lia]. }
      rewrite (Qabs_pos (nth f axis 0%Q - t)%Q) by lra.
      rewrite (Qabs_pos (nth k axis 0%Q - t)%Q) by lra. lra.
    + assert (Hck : Z.to_nat c = k) by lia.
      rewrite Hck. apply Qle_refl.
Qed.

Lemma py_nth_minus_one (axis : list Q) :
  axis <> [] -> py_nth axis (-1) = last axis 0%Q.
Proof.
  intros Hne. destruct (exists_last Hne) as [pre [x ->]].
  rewrite last_last. unfold py_nth, len. rewrite length_app. simpl List.length.
  cbn [Z.ltb Z.compare]. rewrite app_nth2 by lia.
  replace (Z.to_nat (Z.of_nat (List.length pre + 1) + -1) - List.length pre)%nat
    with O by lia.
  reflexivity.
Qed.

(** ** Statements about [find_closest_ion_mz_index] *)

Lemma Qeq_bool_false (t : Q) : ~ (t == 0)%Q -> Qeq_bool t 0 = false.
Proof.
  intros Ht. destruct (Qeq_bool t 0) eqn:E; [ | reflexivity].
  apply Qeq_bool_iff in E. contradiction.
Qed.

(** C1.  On a sorted axis, for a target within the (non-negative)
    tolerance of some axis entry, [find_closest_ion_mz_index] returns an
    index [r] that is one of the two candidates, the scan position [c]
    and the position before it, and whose error in parts per million is
    the smaller of the two candidates' errors (and within the tolerance).
    The scan position is the first position whose entry is not less than
    the target, or the last position of the axis when there is none; the
    candidates are read with Python's indexing. *)
Theorem find_closest_returns_minimal_neighbour
        (allowed : Q) (axis : list Q) (t : Q) :
  (0 <= allowed)%Q ->
  sortedb axis = true ->
  (exists a, In a axis /\ within_tolerance allowed a t) ->
  exists r,
    find_closest_ion_mz_index allowed axis t = ret r
    /\ (let c := Z.min (Z.of_nat (first_not_less axis t)) (len axis - 1) in
        (r = c - 1 \/ r = c)
        /\ (ppm (py_nth axis r) t <= ppm (py_nth axis (c - 1)) t)%Q
        /\ (ppm (py_nth axis r) t <= ppm (py_nth axis c) t)%Q)
    /\ (ppm (py_nth axis r) t <= allowed)%Q.
Proof.
  intros Hallowed Hs [a [Hin [Ht Ha]]].
  assert (Hne : axis <> []) by (intros ->; contradiction).
  rewrite (find_closest_unfold allowed axis t Hne (Qeq_bool_false t Ht)).
  fold (scan_position axis t). cbv zeta.
  set (c := scan_position axis t).
  set (prev := ppm (py_nth axis (c - 1)) t).
  set (next := ppm (py_nth axis c) t).
  assert (Hsome : (prev <= allowed)%Q \/ (next <= allowed)%Q).
  { destruct (Qlt_le_dec 0 t) as [Hpos | Hneg].
    - destruct (In_nth axis a 0%Q Hin) as [k [Hk Hnth]].
      destruct (nearest_candidate axis t k Hs Hk) as [Hc | Hc]; rewrite Hnth in Hc.
      + right. apply Qle_trans with (ppm a t); [ | exact Ha].
        now apply ppm_monotone.
      + left. apply Qle_trans with (ppm a t); [ | exact Ha].
        now apply ppm_monotone.
    - assert (Hlt : (t < 0)%Q).
      { destruct (Qlt_le_dec t 0) as [H | H]; [exact H | ].
        exfalso. apply Ht. now apply Qle_antisym. }
      left. apply Qle_trans with 0%Q; [ | exact Hallowed].
      now apply ppm_negative_target. }
  destruct (choose_cases allowed prev next c)
    as [[E [H1 H2]] | [[E [H1 H2]] | [E [[H1 H2] | [H1 H2]]]]].
  - exists (c - 1). rewrite E. repeat split; auto; try apply Qle_refl.
  - exists c. rewrite E. repeat split; auto; try apply Qle_refl.
    now apply Qlt_le_weak.
  - exfalso. destruct Hsome as [H | H]; [contradiction | ].
    apply H2. now apply Qle_trans with next.
  - exfalso. destruct Hsome as [H | H]; [ | contradiction].
    apply H2. apply Qle_trans with prev; [now apply Qlt_le_weak | exact H].
Qed.

(** C2.  When no entry of the axis is within the tolerance of the
    target, [find_closest_ion_mz_index] raises: it returns no index. *)
Theorem find_closest_raises_out_of_tolerance
        (allowed : Q) (axis : list Q) (t : Q) :
  (forall a, In a axis -> ~ within_tolerance allowed a t) ->
  exists e, result (find_closest_ion_mz_index allowed axis t) = Raises e.
Proof.
  intros Hnone.
  destruct axis as [ | x axis'] eqn:Eaxis.
  - exists IndexError. reflexivity.
  - rewrite <- Eaxis in *.
    assert (Hne : axis <> []) by (rewrite Eaxis; discriminate).
    destruct (Qeq_bool t 0) eqn:Et.
    + exists ZeroDivisionError. unfold find_closest_ion_mz_index.
      rewrite find_closest_fuel_zero_target; auto.
    + assert (Ht : ~ (t == 0)%Q).
      { intros H. apply Qeq_bool_iff in H. congruence. }
      rewrite (find_closest_unfold allowed axis t Hne Et).
      pose proof (scan_position_range axis t Hne) as Hc.
      set (c := scan_position axis t) in *.
      assert (Hprev : ~ (ppm (py_nth axis (c - 1)) t <= allowed)%Q).
      { intros H. apply (Hnone (py_nth axis (c - 1))).
        - apply py_nth_In. lia.
        - now split. }
      assert (Hnext : ~ (ppm (py_nth axis c) t <= allowed)%Q).
      { intros H. apply (Hnone (py_nth axis c)).
        - apply py_nth_In. lia.
        - now split. }
      exists (ValueError no_ion_message).
      destruct (choose_cases allowed (ppm (py_nth axis (c - 1)) t)
                             (ppm (py_nth axis c) t) c)
        as [[E [H1 H2]] | [[E [H1 H2]] | [E _]]];
        try contradiction.
      rewrite E. reflexivity.
Qed.

(** C4.  On an axis of at least two entries, with a target not greater
    than the first entry, the scan stops at position 0 and the previous
    candidate is read at index -1, that is from the last entry of the
    axis: the choice is made between the last and the first entry, and
    the index -1 is returned as soon as the last entry's error is at most
    the first entry's and within the tolerance.  Nothing in the function
    treats this case apart. *)
Theorem find_closest_below_first_entry
        (allowed : Q) (axis : list Q) (t : Q) :
  2 <= len axis ->
  (t <= py_nth axis 0)%Q ->
  (forall fuel, (List.length axis <= fuel)%nat -> scan fuel axis t 0 = ret 0)
  /\ (~ (t == 0)%Q ->
      find_closest_ion_mz_index allowed axis t =
      choose allowed (ppm (last axis 0%Q) t) (ppm (py_nth axis 0) t) 0
      /\ ((ppm (last axis 0%Q) t <= ppm (py_nth axis 0) t)%Q ->
          (ppm (last axis 0%Q) t <= allowed)%Q ->
          find_closest_ion_mz_index allowed axis t = ret (-1))).
Proof.
  intros Hlen Hfirst.
  assert (Hne : axis <> []) by (intros ->; change (len (@nil Q)) with 0 in Hlen; lia).
  assert (Hpos : scan_position axis t = 0).
  { unfold scan_position. destruct axis as [ | x axis']; [congruence | ].
    cbn [first_not_less]. unfold py_nth in Hfirst. simpl in Hfirst.
    apply Qlt_bool_false_iff in Hfirst. rewrite Hfirst.
    rewrite len_cons. pose proof (len_nonneg axis'). simpl Z.of_nat. lia. }
  split.
  - intros fuel Hfuel. rewrite scan_fuel_enough by assumption. now rewrite Hpos.
  - intros Ht.
    assert (E : find_closest_ion_mz_index allowed axis t =
                choose allowed (ppm (last axis 0%Q) t) (ppm (py_nth axis 0) t) 0).
    { rewrite (find_closest_unfold allowed axis t Hne (Qeq_bool_false t Ht)).
      rewrite Hpos. change (0 - 1) with (-1).
      now rewrite py_nth_minus_one. }
    split; [exact E | ].
    intros H1 H2. rewrite E. unfold choose.
    apply Qle_bool_iff in H1, H2. now rewrite H1, H2.
Qed.

(** C7.  On the axis [100.0, 100.5, 101.2], for the target 100.52 and
    any tolerance that admits the error of the entry 100.5 against it,
    [find_closest_ion_mz_index] returns the index 1. *)
Theorem find_closest_example (allowed : Q) :
  (ppm 100.5 100.52 <= allowed)%Q ->
  find_closest_ion_mz_index allowed [100; 100.5; 101.2]%Q 100.52%Q = ret 1.
Proof.
  intros Hallowed.
  rewrite find_closest_unfold by (discriminate || reflexivity).
  assert (Hpos : scan_position [100; 100.5; 101.2]%Q 100.52%Q = 2) by reflexivity.
  rewrite Hpos.
  change (py_nth [100; 100.5; 101.2]%Q (2 - 1)) with 100.5%Q.
  change (py_nth [100; 100.5; 101.2]%Q 2) with 101.2%Q.
  unfold choose.
  assert (H1 : Qle_bool (ppm 100.5 100.52) (ppm 101.2 100.52) = true) by reflexivity.
  apply Qle_bool_iff in Hallowed. now rewrite H1, Hallowed.
Qed.

Lemma find_closest_nonempty_completes
      (allowed : Q) (axis : list Q) (t : Q) :
  axis <> [] ->
  result (find_closest_ion_mz_index allowed axis t) <> OutOfFuel.
Proof.
  intros Hne.
  destruct (Qeq_bool t 0) eqn:Et.
  - unfold find_closest_ion_mz_index.
    rewrite find_closest_fuel_zero_target by auto. discriminate.
  - rewrite (find_closest_unfold allowed axis t Hne Et).
    destruct (choose_cases allowed
                (ppm (py_nth axis (scan_position axis t - 1)) t)
                (ppm (py_nth axis (scan_position axis t)) t)
                (scan_position axis t))
      as [[E _] | [[E _] | [E _]]]; rewrite E; discriminate.
Qed.

(** C10.  On a non-empty axis [find_closest_ion_mz_index] terminates:
    an iteration of the scan moves the index one position up and keeps it
    below [len(mz_axis)], the scan ends at a position between 0 and
    [len(mz_axis) - 1] once its condition has been evaluated
    [len(mz_axis)] times, and any larger number of unrollings of the loop
    gives the same, completed, run.  An index that is returned lies
    between -1 and [len(mz_axis) - 1]. *)
Theorem find_closest_terminates_in_range
        (allowed : Q) (axis : list Q) (t : Q) :
  axis <> [] ->
  (forall fuel i x,
      getitem axis i = ret x ->
      Qlt_bool x t && (i + 1 <? len axis) = true ->
      scan (S fuel) axis t i = scan fuel axis t (i + 1)
      /\ i < i + 1 < len axis)
  /\ (exists c, 0 <= c <= len axis - 1 /\
                forall fuel, (List.length axis <= fuel)%nat ->
                             scan fuel axis t 0 = ret c)
  /\ (forall fuel, (List.length axis <= fuel)%nat ->
        find_closest_ion_mz_index_fuel allowed fuel axis t =
        find_closest_ion_mz_index allowed axis t)
  /\ result (find_closest_ion_mz_index allowed axis t) <> OutOfFuel
  /\ (forall r, result (find_closest_ion_mz_index allowed axis t) = Returns r ->
                -1 <= r <= len axis - 1).
Proof.
  intros Hne.
  pose proof (scan_position_range axis t Hne) as Hc.
  split; [ | split; [ | split]].
  - intros fuel i x Hx Hguard. cbn [scan].
    rewrite Hx, bind_ret_l, Hguard.
    apply andb_true_iff in Hguard as [_ Hlt]. apply Z.ltb_lt in Hlt.
    split; [reflexivity | lia].
  - exists (scan_position axis t). split; [lia | ].
    intros fuel Hfuel. now apply scan_fuel_enough.
  - intros fuel Hfuel. unfold find_closest_ion_mz_index.
    destruct (Qeq_bool t 0) eqn:Et.
    + rewrite !find_closest_fuel_zero_target; auto.
    + rewrite !find_closest_fuel_unfold; auto.
  - destruct (Qeq_bool t 0) eqn:Et.
    + unfold find_closest_ion_mz_index.
      rewrite find_closest_fuel_zero_target by auto.
      split; [discriminate | intros r H; discriminate].
    + rewrite (find_closest_unfold allowed axis t Hne Et).
      destruct (choose_cases allowed
                  (ppm (py_nth axis (scan_position axis t - 1)) t)
                  (ppm (py_nth axis (scan_position axis t)) t)
                  (scan_position axis t))
        as [[E _] | [[E _] | [E _]]]; rewrite E; simpl;
        (split; [discriminate | intros r H; inversion H; lia]).
Qed.

(** ** Lookup failures and absent names *)

Lemma result_bind_ext {A B} (m : M A) (k k' : A -> M B) :
  (forall a, result (k a) = result (k' a)) ->
  result (bind m k) = result (bind m k').
Proof.
  intros H. destruct m as [out [a | e | ]]; simpl; try reflexivity.
  specialize (H a). destruct (k a), (k' a). exact H.
Qed.

Lemma stdout_bind {A B} (m : M A) (k : A -> M B) (a : A) :
  result m = Returns a -> stdout (bind m k) = (stdout m ++ stdout (k a))%list.
Proof.
  destruct m as [out r]; simpl. intros ->. now destruct (k a).
Qed.

Lemma find_closest_completes (allowed : Q) (axis : list Q) (t : Q) :
  result (find_closest_ion_mz_index allowed axis t) <> OutOfFuel.
Proof.
  destruct axis as [ | x axis']; [discriminate | ].
  apply (find_closest_nonempty_completes allowed (x :: axis') t).
  discriminate.
Qed.

Section Lookup.

Variable allowed : Q.
Variable aa_info : Type.
Variables (ions_mzs : list Q) (ions_names : list string) (mz_axis : list Q).

Local Abbreviation loop := (aa_loop allowed aa_info ions_mzs ions_names mz_axis).
Local Abbreviation is_present := (present aa_info ions_names).
Local Abbreviation lookup_of := (lookup allowed ions_mzs ions_names mz_axis).

Lemma aa_loop_present name info todo acc1 acc2 :
  contains name ions_names = true ->
  loop ((name, info) :: todo) acc1 acc2 =
  bind (lookup_of name) (fun i => loop todo (acc1 ++ [i]) (acc2 ++ [name])).
Proof.
  intros H. cbn [aa_loop]. rewrite H.
  unfold lookup. rewrite bind_assoc. apply bind_ext. intros aa_index.
  now rewrite bind_assoc.
Qed.

Lemma aa_loop_absent name info todo acc1 acc2 :
  contains name ions_names = false ->
  loop ((name, info) :: todo) acc1 acc2 =
  bind (print [VStr name; VStr absent_message]) (fun _ => loop todo acc1 acc2).
Proof. intros H. cbn [aa_loop]. now rewrite H. Qed.

Lemma lookup_completes name : result (lookup_of name) <> OutOfFuel.
Proof.
  unfold lookup.
  destruct (index ions_names name) as [o1 [k | e | ]] eqn:E1;
    try discriminate.
  - rewrite (result_bind _ _ k) by reflexivity.
    destruct (getitem ions_mzs k) as [o2 [mz | e | ]] eqn:E2;
      try discriminate.
    + rewrite (result_bind _ _ mz) by reflexivity.
      apply find_closest_completes.
    + exfalso. unfold getitem in E2.
      destruct (norm_index (len ions_mzs) k); [ | discriminate].
      destruct (nth_error ions_mzs n); discriminate.
  - exfalso. unfold index in E1. revert E1. generalize 0.
    induction ions_names as [ | y l IH]; intros z E1; [discriminate | ].
    simpl in E1. destruct (String.eqb y name); [discriminate | eauto].
Qed.

(** Absent names change nothing in how the loop ends. *)
Lemma aa_loop_filter todo :
  forall acc1 acc2,
    result (loop todo acc1 acc2) = result (loop (filter is_present todo) acc1 acc2).
Proof.
  induction todo as [ | [name info] todo IH]; intros acc1 acc2; [reflexivity | ].
  cbn [filter].
  change (is_present (name, info)) with (contains name ions_names).
  destruct (contains name ions_names) eqn:E.
  - rewrite !aa_loop_present by assumption.
    apply result_bind_ext. intros i. apply IH.
  - rewrite aa_loop_absent by assumption.
    rewrite (result_bind _ _ tt) by reflexivity. apply IH.
Qed.

(** What the loop returns, and the warnings on the way. *)
Lemma aa_loop_returns todo :
  forall acc1 acc2 idxs names,
    result (loop todo acc1 acc2) = Returns (idxs, names) ->
    names = (acc2 ++ map fst (filter is_present todo))%list
    /\ List.length idxs = (List.length acc1 + List.length (filter is_present todo))%nat
    /\ forall name, In name (map fst todo) -> contains name ions_names = false ->
                    In [VStr name; VStr absent_message] (stdout (loop todo acc1 acc2)).
Proof.
  induction todo as [ | [name info] todo IH]; intros acc1 acc2 idxs names H.
  - simpl in H. inversion H; subst.
    rewrite app_nil_r. split; [reflexivity | split].
    + simpl. lia.
    + intros name [].
  - cbn [filter].
    change (is_present (name, info)) with (contains name ions_names).
    destruct (contains name ions_names) eqn:E.
    + rewrite aa_loop_present in * by assumption.
      apply result_bind_returns in H as [i [Hi H]].
      destruct (IH _ _ _ _ H) as [Hn [Hl Hw]]. subst names.
      rewrite <- app_assoc in *. cbn [map fst app].
      split; [reflexivity | split].
      * rewrite Hl, length_app. simpl. lia.
      * intros x [Hx | Hx] Hc; [simpl in Hx; congruence | ].
        rewrite (stdout_bind _ _ i Hi). apply in_or_app. right.
        now apply Hw.
    + rewrite aa_loop_absent in * by assumption.
      rewrite (result_bind _ _ tt) in H by reflexivity.
      destruct (IH _ _ _ _ H) as [Hn [Hl Hw]].
      split; [exact Hn | split; [exact Hl | ]].
      intros x [Hx | Hx] Hc; rewrite (stdout_bind _ _ tt) by reflexivity.
      * simpl in Hx. subst x. now left.
      * apply in_or_app. right. now apply Hw.
Qed.

(** A present name whose lookup raises makes the loop raise. *)
Lemma aa_loop_raises todo :
  forall acc1 acc2 name info e,
    In (name, info) todo -> contains name ions_names = true ->
    result (lookup_of name) = Raises e ->
    exists e', result (loop todo acc1 acc2) = Raises e'.
Proof.
  induction todo as [ | [name' info'] todo IH];
    intros acc1 acc2 name info e Hin Hc He; [contradiction | ].
  destruct (contains name' ions_names) eqn:E.
  - rewrite aa_loop_present by assumption.
    destruct (lookup_of name') as [o [i | e1 | ]] eqn:El.
    + rewrite (result_bind _ _ i) by reflexivity.
      destruct Hin as [Heq | Hin].
      * inversion Heq; subst. rewrite El in He. discriminate.
      * eapply IH; eauto.
    + exists e1. reflexivity.
    + exfalso. apply (lookup_completes name'). now rewrite El.
  - rewrite aa_loop_absent by assumption.
    rewrite (result_bind _ _ tt) by reflexivity.
    destruct Hin as [Heq | Hin].
    + inversion Heq; subst. congruence.
    + eapply IH; eauto.
Qed.

End Lookup.

(** C5, as stated, fails: with a tolerance of 10 ppm the lookups of 200
    and of 400 on the axis [100] raise the very same exception, while
    their candidate errors are 500000 and 750000 ppm. *)
Lemma lookup_error_does_not_carry_ppms : ~ error_carries_ppms 10.
Proof.
  intros [read H].
  assert (H1 := H [100%Q] 200%Q (ValueError no_ion_message)).
  assert (H2 := H [100%Q] 400%Q (ValueError no_ion_message)).
  destruct H1 as [H1 _]; [discriminate | discriminate | reflexivity | ].
  destruct H2 as [H2 _]; [discriminate | discriminate | reflexivity | ].
  rewrite H1 in H2. vm_compute in H2. discriminate.
Qed.

(** C5, amended.  When neither candidate is within the tolerance,
    [find_closest_ion_mz_index] prints the two candidate errors on the
    console and raises a [ValueError] whose only content is a fixed
    message.  [get_amino_acids_indices_in_data] does not catch it: if the
    lookup of one analyte of the reference list that is present in the
    ion names raises, the whole function raises. *)
Theorem lookup_failure_prints_and_aborts
        (allowed : Q) (aa_info : Type) (amino_acids : list (string * aa_info))
        (ions_mzs : list Q) (ions_names : list string) (mz_axis : list Q) :
  (forall axis t,
      axis <> [] -> ~ (t == 0)%Q ->
      let c := scan_position axis t in
      let previous_peak_ppm := ppm (py_nth axis (c - 1)) t in
      let next_peak_ppm := ppm (py_nth axis c) t in
      ~ (previous_peak_ppm <= allowed)%Q -> ~ (next_peak_ppm <= allowed)%Q ->
      find_closest_ion_mz_index allowed axis t =
      ([[VStr "ppms:"; VNum previous_peak_ppm; VNum next_peak_ppm]],
       Raises (ValueError "No ion within current ppm identified!")))
  /\ (forall name info aa_index mz e,
         In (name, info) amino_acids ->
         contains name ions_names = true ->
         index ions_names name = ret aa_index ->
         getitem ions_mzs aa_index = ret mz ->
         result (find_closest_ion_mz_index allowed mz_axis mz) = Raises e ->
         exists e',
           result (get_amino_acids_indices_in_data
                     allowed aa_info amino_acids ions_mzs ions_names mz_axis)
           = Raises e').
Proof.
  split.
  - intros axis t Hne Ht c prev next Hprev Hnext.
    rewrite (find_closest_unfold allowed axis t Hne (Qeq_bool_false t Ht)).
    fold c. fold prev. fold next.
    destruct (choose_cases allowed prev next c)
      as [[E [H1 H2]] | [[E [H1 H2]] | [E _]]]; try contradiction.
    exact E.
  - intros name info aa_index mz e Hin Hc Hindex Hmz He.
    unfold get_amino_acids_indices_in_data.
    apply (aa_loop_raises allowed aa_info ions_mzs ions_names mz_axis
                          amino_acids [] [] name info e Hin Hc).
    unfold lookup. rewrite Hindex, bind_ret_l, Hmz, bind_ret_l. exact He.
Qed.

(** C8.  Names of the reference list that are absent from the ion names
    do not make [get_amino_acids_indices_in_data] fail: the call ends as
    it does on the reference list without them, and returns two empty
    lists when every name is absent.  When it returns, the names are
    those of the reference list that were found, in the order of that
    list, with one index for each, and a warning has been printed for
    every absent name. *)
Theorem absent_names_are_skipped
        (allowed : Q) (aa_info : Type) (amino_acids : list (string * aa_info))
        (ions_mzs : list Q) (ions_names : list string) (mz_axis : list Q) :
  let found := filter (present aa_info ions_names) amino_acids in
  let run := get_amino_acids_indices_in_data
               allowed aa_info amino_acids ions_mzs ions_names mz_axis in
  result run =
  result (get_amino_acids_indices_in_data
            allowed aa_info found ions_mzs ions_names mz_axis)
  /\ (found = [] -> result run = Returns ([], []))
  /\ (forall aa_mz_indices aa_names,
         result run = Returns (aa_mz_indices, aa_names) ->
         aa_names = map fst found
         /\ List.length aa_mz_indices = List.length aa_names
         /\ forall name,
             In name (map fst amino_acids) ->
             contains name ions_names = false ->
             In [VStr name; VStr "is not in ions names"] (stdout run)).
Proof.
  intros found run.
  assert (Hfilter : result run =
                    result (get_amino_acids_indices_in_data
                              allowed aa_info found ions_mzs ions_names mz_axis)).
  { subst run found. unfold get_amino_acids_indices_in_data.
    apply aa_loop_filter. }
  split; [exact Hfilter | split].
  - intros Hnone. rewrite Hfilter, Hnone. reflexivity.
  - intros idxs names Hret. subst run.
    unfold get_amino_acids_indices_in_data in *.
    destruct (aa_loop_returns allowed aa_info ions_mzs ions_names mz_axis
                              amino_acids [] [] idxs names Hret)
      as [Hn [Hl Hw]].
    simpl in Hn, Hl. fold found in Hn, Hl.
    split; [exact Hn | split; [ | exact Hw]].
    rewrite Hl, Hn, length_map. reflexivity.
Qed.

(** ** The autoencoder *)

(** C9.  Whatever the parameters of the four layers and the input, the
    forward pass is the encoder followed by the decoder; in particular
    it raises where one of them does. *)
Theorem forward_is_decode_after_encode
        (exp : Q -> Q) (self : Torch.AE) (features : Torch.tensor) :
  Torch.forward exp self features =
  (encoded <- Torch.encode exp self features ;; Torch.decode exp self encoded).
Proof.
  unfold Torch.forward, Torch.encode, Torch.decode.
  rewrite bind_assoc. apply bind_ext. intros encoded1.
  rewrite bind_assoc. apply bind_ext. intros encoded2.
  now rewrite bind_ret_l.
Qed.

(** ** Normalisation by the total ion current *)

Lemma mapM_returns {A B} (f : A -> M B) (l : list A) :
  forall bs, result (mapM f l) = Returns bs ->
             Forall2 (fun a b => result (f a) = Returns b) l bs.
Proof.
  induction l as [ | a l IH]; intros bs H.
  - simpl in H. inversion H. constructor.
  - cbn [mapM] in H.
    apply result_bind_returns in H as [b [Hb H]].
    apply result_bind_returns in H as [bs' [Hbs H]].
    simpl in H. inversion H; subst. constructor; auto.
Qed.

Lemma mapM_cons {A B} (f : A -> M B) (a : A) (l : list A) :
  mapM f (a :: l) =
  bind (f a) (fun b => bind (mapM f l) (fun bs => ret (b :: bs))).
Proof. reflexivity. Qed.

Lemma Forall2_nth_error {A B} (P : A -> B -> Prop) (l : list A) (l' : list B) :
  Forall2 P l l' ->
  forall i a, nth_error l i = Some a ->
              exists b, nth_error l' i = Some b /\ P a b.
Proof.
  induction 1 as [ | x y l l' Hxy _ IH]; intros i a Hi.
  - destruct i; discriminate.
  - destruct i as [ | i]; simpl in *.
    + inversion Hi; subst. now exists y.
    + now apply IH.
Qed.

Lemma nth_error_range (k : Z) (i : nat) :
  Z.of_nat i < k -> nth_error (range k) i = Some (Z.of_nat i).
Proof.
  intros Hi. unfold range.
  rewrite nth_error_map, nth_error_seq.
  replace (i <? Z.to_nat k)%nat with true by (symmetry; apply Nat.ltb_lt; lia).
  reflexivity.
Qed.

Lemma getitem_nth_error {A} (l : list A) (i : nat) (a : A) :
  nth_error l i = Some a -> getitem l (Z.of_nat i) = ret a.
Proof.
  intros H. unfold getitem, norm_index.
  assert (Hi : (i < List.length l)%nat) by (apply nth_error_Some; congruence).
  replace (Z.of_nat i <? 0) with false by (symmetry; apply Z.ltb_ge; lia).
  replace (0 <=? Z.of_nat i) with true by (symmetry; apply Z.leb_le; lia).
  replace (Z.of_nat i <? len l) with true
    by (symmetry; apply Z.ltb_lt; unfold len; lia).
  simpl. now rewrite Nat2Z.id, H.
Qed.

(** ** Batch labels *)

Lemma triples_length (s m : nat) :
  List.length (triples (map Z.of_nat (seq s m))) = (3 * m)%nat.
Proof.
  revert s. induction m as [ | m IH]; intros s; [reflexivity | ].
  unfold triples, flatten in *. cbn [seq map flat_map app List.length].
  rewrite IH. lia.
Qed.

Lemma triples_nth_error (m : nat) :
  forall s k, (k < 3 * m)%nat ->
              nth_error (triples (map Z.of_nat (seq s m))) k =
              Some (Z.of_nat (s + k / 3)).
Proof.
  induction m as [ | m IH]; intros s k Hk; [lia | ].
  unfold triples, flatten in *. cbn [seq map flat_map app].
  destruct k as [ | [ | [ | k]]]; cbn [nth_error].
  - now rewrite Nat.add_0_r.
  - now rewrite Nat.add_0_r.
  - now rewrite Nat.add_0_r.
  - rewrite IH by lia. do 2 f_equal.
    replace (S (S (S k))) with (k + 1 * 3)%nat by lia.
    rewrite Nat.div_add by lia. lia.
Qed.

(** When the two assignments of labels accept the batches, there are as
    many batches as samples, and the replicate count is 3, or it is 2 and
    there are 3 samples. *)
Lemma accepted_group_size (n samples : Z) :
  0 < samples -> n <> 0 -> 3 * (samples / n) = samples ->
  n = 3 \/ (n = 2 /\ samples = 3).
Proof.
  intros Hs Hn H.
  assert (Hq : 0 < samples / n) by lia.
  destruct (Z.lt_trichotomy n 0) as [Hneg | [H0 | Hpos]]; [ | lia | ].
  - exfalso.
    pose proof (Z.div_mod samples n Hn) as Hd.
    pose proof (Z.mod_neg_bound samples n Hneg) as Hm.
    nia.
  - pose proof (Z.div_mod samples n Hn) as Hd.
    pose proof (Z.mod_pos_bound samples n Hpos) as Hm.
    assert (n <= 3) by nia.
    assert (n = 1 \/ n = 2 \/ n = 3) as [-> | [-> | ->]] by lia.
    + exfalso. rewrite Z.div_1_r in H. lia.
    + right. split; [reflexivity | ]. lia.
    + now left.
Qed.

Lemma mapM_singletons {A} (l : list A) :
  mapM (fun row => match nth_error row 0 with
                   | Some v => ret v
                   | None => raise IndexError
                   end) (map (fun x => [x]) l) = ret l.
Proof.
  set (f := fun row : list A => match nth_error row 0 with
                                 | Some v => ret v
                                 | None => raise IndexError
                                 end).
  induction l as [ | x l IH]; [reflexivity | ].
  change (map (fun x => [x]) (x :: l)) with ([x] :: map (fun x => [x]) l).
  rewrite mapM_cons. change (f [x]) with (ret x).
  now rewrite bind_ret_l, IH, bind_ret_l.
Qed.

Lemma range_index_length (k : Z) : List.length (range_index k) = Z.to_nat k.
Proof. unfold range_index, range. now rewrite !length_map, length_seq. Qed.

(** What [combat_arguments] hands over when it returns. *)
Lemma combat_arguments_returns
      (sharp : string) (n : Z) (data : ndarray) (colnames : list string)
      (frame : DataFrame Q) (batch : Series Z) :
  result (combat_arguments sharp n data colnames) = Returns (frame, batch) ->
  n <> 0
  /\ s_values batch = triples (range (len colnames / n))
  /\ List.length (s_index batch) = List.length colnames
  /\ List.length (s_values batch) = List.length colnames
  /\ colnames <> [].
Proof.
  unfold combat_arguments. intros H.
  apply result_bind_returns in H as [frame' [_ H]].
  apply result_bind_returns in H as [groups [Hgroups H]].
  unfold floordiv in Hgroups.
  destruct (Z.eqb_spec n 0) as [ | Hn]; [discriminate | ].
  simpl in Hgroups. inversion Hgroups; subst groups. clear Hgroups.
  fold (triples (range (len colnames / n))) in H.
  set (b := triples (range (len colnames / n))) in *.
  apply result_bind_returns in H as [batches1 [H1 H]].
  apply result_bind_returns in H as [batches2 [H2 H]].
  apply result_bind_returns in H as [batch' [H3 H]].
  simpl in H. inversion H; subst frame' batch'. clear H.
  destruct b as [ | x b'] eqn:Eb; [discriminate | ].
  rewrite <- Eb in *.
  assert (Hframe : frame_of_list b =
                   mk_frame (range_index (len b)) [LInt 0] (map (fun x => [x]) b)).
  { rewrite Eb. reflexivity. }
  rewrite Hframe in H1. simpl in H1. inversion H1; subst batches1. clear H1.
  unfold set_index in H2. cbn [df_index df_columns df_values] in H2.
  destruct (Nat.eqb_spec (List.length (range_index (len b)))
                         (List.length (map LStr
                            (map (fun i => (nth i colnames "" ++ sharp ++ str i)%string)
                                 (seq 0 (List.length colnames))))))
    as [Hlen | ]; [ | discriminate].
  simpl in H2. inversion H2; subst batches2. clear H2.
  unfold column in H3. cbn [df_index df_columns df_values position label_eqb] in H3.
  rewrite String.eqb_refl, mapM_singletons, bind_ret_l in H3.
  simpl in H3. inversion H3; subst batch. clear H3.
  cbn [s_values s_index].
  rewrite range_index_length, !length_map, length_seq in Hlen.
  unfold len in Hlen. rewrite Nat2Z.id in Hlen.
  repeat split; auto.
  - now rewrite !length_map, length_seq.
  - intros ->. rewrite Eb in Hlen. discriminate.
Qed.

(** C6.  The labels handed to [combat] are one per sample, and the
    samples of one consecutive group of [n] samples, [n] being the
    replicate count, bear one label.  (The label of sample [k] is
    [k // 3].) *)
Theorem combat_batch_labels
        (sharp : string) (n : Z) (data : ndarray) (colnames : list string)
        (frame : DataFrame Q) (batch : Series Z) :
  result (combat_arguments sharp n data colnames) = Returns (frame, batch) ->
  List.length (s_values batch) = List.length colnames
  /\ List.length (s_index batch) = List.length colnames
  /\ (forall k, (k < List.length colnames)%nat ->
                nth_error (s_values batch) k = Some (Z.of_nat k / 3))
  /\ (forall k1 k2,
         (k1 < List.length colnames)%nat -> (k2 < List.length colnames)%nat ->
         Z.of_nat k1 / n = Z.of_nat k2 / n ->
         nth_error (s_values batch) k1 = nth_error (s_values batch) k2).
Proof.
  intros H.
  destruct (combat_arguments_returns _ _ _ _ _ _ H)
    as [Hn [Hvalues [Hindex [Hlen Hne]]]].
  assert (Hnth : forall k, (k < List.length colnames)%nat ->
                           nth_error (s_values batch) k = Some (Z.of_nat k / 3)).
  { intros k Hk. rewrite Hvalues in *. unfold range in *.
    rewrite triples_length in Hlen.
    rewrite triples_nth_error by lia.
    now rewrite Nat.add_0_l, Nat2Z.inj_div. }
  split; [exact Hlen | split; [exact Hindex | split; [exact Hnth | ]]].
  intros k1 k2 Hk1 Hk2 Hgroup.
  rewrite !Hnth by assumption. f_equal.
  assert (Hsamples : 0 < len colnames).
  { unfold len. destruct colnames; [congruence | simpl; lia]. }
  assert (Hthree : 3 * (len colnames / n) = len colnames).
  { rewrite Hvalues in Hlen. unfold range in Hlen.
    rewrite triples_length in Hlen. unfold len in *.
    set (groups := Z.of_nat (List.length colnames) / n) in *. lia. }
  destruct (accepted_group_size n (len colnames) Hsamples Hn Hthree)
    as [-> | [-> Hl]].
  - exact Hgroup.
  - unfold len in Hl. rewrite !Z.div_small by lia. reflexivity.
Qed.

(* ------------------------------------------------------------------ *)
(** * Instances *)

(** A target 5 ppm above the entry 200, with a tolerance of 10 ppm. *)
Lemma find_closest_returns_minimal_neighbour_witness :
  (0 <= 10)%Q
  /\ sortedb [100; 200; 300]%Q = true
  /\ (exists a, In a [100; 200; 300]%Q /\ within_tolerance 10 a 200.001)
  /\ exists r,
      find_closest_ion_mz_index 10 [100; 200; 300]%Q 200.001%Q = ret r
      /\ (let c := Z.min (Z.of_nat (first_not_less [100; 200; 300]%Q 200.001))
                         (len [100; 200; 300]%Q - 1) in
          (r = c - 1 \/ r = c)
          /\ (ppm (py_nth [100; 200; 300]%Q r) 200.001
              <= ppm (py_nth [100; 200; 300]%Q (c - 1)) 200.001)%Q
          /\ (ppm (py_nth [100; 200; 300]%Q r) 200.001
              <= ppm (py_nth [100; 200; 300]%Q c) 200.001)%Q)
      /\ (ppm (py_nth [100; 200; 300]%Q r) 200.001 <= 10)%Q.
Proof.
  assert (H0 : (0 <= 10)%Q) by (apply Qle_bool_iff; reflexivity).
  assert (Hs : sortedb [100; 200; 300]%Q = true) by reflexivity.
  assert (Hw : exists a, In a [100; 200; 300]%Q /\ within_tolerance 10 a 200.001).
  { exists 200%Q. split; [simpl; auto | ].
    split; [intros H; discriminate H | apply Qle_bool_iff; reflexivity]. }
  split; [exact H0 | split; [exact Hs | split; [exact Hw | ]]].
  exact (find_closest_returns_minimal_neighbour
           10 [100; 200; 300]%Q 200.001%Q H0 Hs Hw).
Defined.

(** A target half way between two entries, with a tolerance of 10 ppm. *)
Lemma find_closest_raises_out_of_tolerance_witness :
  (forall a, In a [100; 200]%Q -> ~ within_tolerance 10 a 150)
  /\ exists e, result (find_closest_ion_mz_index 10 [100; 200]%Q 150%Q) = Raises e.
Proof.
  assert (H : forall a, In a [100; 200]%Q -> ~ within_tolerance 10 a 150).
  { intros a [<- | [<- | []]] [_ Hle];
      apply Qle_bool_iff in Hle; vm_compute in Hle; discriminate Hle. }
  split; [exact H | ].
  exact (find_closest_raises_out_of_tolerance 10 [100; 200]%Q 150%Q H).
Defined.

(** The index -1 is returned. *)
Lemma find_closest_below_first_entry_witness :
  2 <= len [100; 100]%Q
  /\ (100 <= py_nth [100; 100]%Q 0)%Q
  /\ find_closest_ion_mz_index 10 [100; 100]%Q 100%Q = ret (-1).
Proof.
  assert (H2 : 2 <= len [100; 100]%Q) by (vm_compute; discriminate).
  assert (H1 : (100 <= py_nth [100; 100]%Q 0)%Q)
    by (apply Qle_bool_iff; reflexivity).
  split; [exact H2 | split; [exact H1 | ]].
  destruct (find_closest_below_first_entry 10 [100; 100]%Q 100%Q H2 H1)
    as [_ Hfind].
  destruct Hfind as [_ Hminus].
  - intros H; discriminate H.
  - apply Hminus; apply Qle_bool_iff; reflexivity.
Defined.

(** A tolerance of 200 ppm admits the entry 100.5. *)
Lemma find_closest_example_witness :
  (ppm 100.5 100.52 <= 200)%Q
  /\ find_closest_ion_mz_index 200 [100; 100.5; 101.2]%Q 100.52%Q = ret 1.
Proof.
  assert (H : (ppm 100.5 100.52 <= 200)%Q) by (apply Qle_bool_iff; reflexivity).
  split; [exact H | exact (find_closest_example 200 H)].
Defined.

Lemma find_closest_terminates_in_range_witness :
  [100; 200]%Q <> []
  /\ result (find_closest_ion_mz_index 10 [100; 200]%Q 150%Q) <> OutOfFuel
  /\ (forall r, result (find_closest_ion_mz_index 10 [100; 200]%Q 150%Q) = Returns r ->
                -1 <= r <= len [100; 200]%Q - 1).
Proof.
  assert (H : [100; 200]%Q <> []) by discriminate.
  split; [exact H | ].
  destruct (find_closest_terminates_in_range 10 [100; 200]%Q 150%Q H)
    as [_ [_ [_ Hrange]]].
  exact Hrange.
Defined.


(** The lookup of 200 on the axis [100], for the one analyte "gly". *)
Lemma lookup_failure_prints_and_aborts_witness :
  find_closest_ion_mz_index 10 [100%Q] 200%Q =
  ([[VStr "ppms:"; VNum (ppm 100 200); VNum (ppm 100 200)]],
   Raises (ValueError "No ion within current ppm identified!"))
  /\ exists e',
      result (get_amino_acids_indices_in_data
                10 unit [("gly"%string, tt)] [200%Q] ["gly"%string] [100%Q])
      = Raises e'.
Proof.
  destruct (lookup_failure_prints_and_aborts
              10 unit [("gly"%string, tt)] [200%Q] ["gly"%string] [100%Q])
    as [Hprint Habort].
  split.
  - apply (Hprint [100%Q] 200%Q).
    + discriminate.
    + intros H; discriminate H.
    + intros H. apply Qle_bool_iff in H. vm_compute in H. discriminate H.
    + intros H. apply Qle_bool_iff in H. vm_compute in H. discriminate H.
  - apply (Habort "gly"%string tt 0 200%Q (ValueError no_ion_message)).
    + simpl. auto.
    + reflexivity.
    + reflexivity.
    + reflexivity.
    + reflexivity.
Defined.

(** Of "ala", "gly" and "ser" only "gly" is among the ion names. *)
Lemma absent_names_are_skipped_witness :
  let amino_acids := [("ala", tt); ("gly", tt); ("ser", tt)]%string in
  let run := get_amino_acids_indices_in_data
               10 unit amino_acids [200%Q] ["gly"%string] [100; 200]%Q in
  result run = Returns ([1], ["gly"%string])
  /\ In [VStr "ala"; VStr "is not in ions names"] (stdout run)
  /\ In [VStr "ser"; VStr "is not in ions names"] (stdout run).
Proof.
  intros amino_acids run.
  assert (Hret : result run = Returns ([1], ["gly"%string])) by reflexivity.
  split; [exact Hret | ].
  destruct (absent_names_are_skipped
              10 unit amino_acids [200%Q] ["gly"%string] [100; 200]%Q)
    as [_ [_ Hreturns]].
  destruct (Hreturns [1] ["gly"%string] Hret) as [_ [_ Hwarn]].
  split; apply Hwarn; simpl; auto.
Defined.

(** Six samples and a replicate count of 3. *)
Lemma combat_batch_labels_witness :
  let data := mk_ndarray 6 [[1; 2; 3; 4; 5; 6]]%Q in
  let colnames := ["a"; "a"; "a"; "b"; "b"; "b"]%string in
  exists frame batch,
    result (combat_arguments "#" 3 data colnames) = Returns (frame, batch)
    /\ s_values batch = [0; 0; 0; 1; 1; 1]
    /\ List.length (s_values batch) = List.length colnames
    /\ (forall k1 k2,
           (k1 < List.length colnames)%nat -> (k2 < List.length colnames)%nat ->
           Z.of_nat k1 / 3 = Z.of_nat k2 / 3 ->
           nth_error (s_values batch) k1 = nth_error (s_values batch) k2).
Proof.
  intros data colnames.
  refine (ex_intro _ _ (ex_intro _ _ _)).
  assert (Hret : result (combat_arguments "#" 3 data colnames)
                 = Returns
                     (mk_frame [LInt 0]
                        (map LStr ["a#0"; "a#1"; "a#2"; "b#3"; "b#4"; "b#5"]%string)
                        [[1; 2; 3; 4; 5; 6]]%Q,
                      mk_series
                        (map LStr ["a#0"; "a#1"; "a#2"; "b#3"; "b#4"; "b#5"]%string)
                        (LStr "batch") [0; 0; 0; 1; 1; 1])) by reflexivity.
  split; [exact Hret | split; [reflexivity | ]].
  destruct (combat_batch_labels "#" 3 data colnames _ _ Hret)
    as [Hlen [_ [_ Hgroup]]].
  split; [exact Hlen | exact Hgroup].
Defined.

(* ------------------------------------------------------------------ *)
(** * Further properties *)

(** ** [find_closest_ion_mz_index] *)

Lemma find_closest_cases (allowed : Q) (axis : list Q) (t : Q) :
  (axis = [] /\ find_closest_ion_mz_index allowed axis t = raise IndexError)
  \/ (axis <> [] /\ (t == 0)%Q
      /\ find_closest_ion_mz_index allowed axis t = raise ZeroDivisionError)
  \/ (axis <> [] /\ ~ (t == 0)%Q
      /\ find_closest_ion_mz_index allowed axis t =
         choose allowed (ppm (py_nth axis (scan_position axis t - 1)) t)
                (ppm (py_nth axis (scan_position axis t)) t)
                (scan_position axis t)).
Proof.
  destruct axis as [ | x axis'] eqn:Eaxis; [left; now split | right].
  rewrite <- Eaxis.
  assert (Hne : axis <> []) by (rewrite Eaxis; discriminate).
  destruct (Qeq_bool t 0) eqn:Et.
  - left. split; [exact Hne | split; [now apply Qeq_bool_iff | ]].
    unfold find_closest_ion_mz_index.
    apply find_closest_fuel_zero_target; auto.
  - right. split; [exact Hne | split].
    + intros H. apply Qeq_bool_iff in H. congruence.
    + now apply find_closest_unfold.
Qed.

(** X1.  An index that [find_closest_ion_mz_index] returns, on any axis,
    sorted or not, is a valid index of the axis, between -1 and
    [len(mz_axis) - 1], of an entry whose error is within the tolerance;
    nothing is printed on the way. *)
Theorem find_closest_result_is_within_tolerance
        (allowed : Q) (axis : list Q) (t : Q) (r : Z) :
  result (find_closest_ion_mz_index allowed axis t) = Returns r ->
  -1 <= r < len axis
  /\ In (py_nth axis r) axis
  /\ within_tolerance allowed (py_nth axis r) t
  /\ stdout (find_closest_ion_mz_index allowed axis t) = [].
Proof.
  intros H.
  destruct (find_closest_cases allowed axis t)
    as [[_ E] | [[_ [_ E]] | [Hne [Ht E]]]]; rewrite E in *; try discriminate.
  pose proof (scan_position_range axis t Hne) as Hc.
  set (c := scan_position axis t) in *.
  destruct (choose_cases allowed (ppm (py_nth axis (c - 1)) t)
                         (ppm (py_nth axis c) t) c)
    as [[E' [H1 H2]] | [[E' [H1 H2]] | [E' _]]];
    rewrite E' in *; try discriminate; inversion H; subst r.
  - split; [lia | split; [apply py_nth_In; lia | ]].
    split; [now split | reflexivity].
  - split; [lia | split; [apply py_nth_In; lia | ]].
    split; [now split | reflexivity].
Qed.

Lemma find_closest_result_is_within_tolerance_witness :
  result (find_closest_ion_mz_index 10 [300; 100; 200]%Q 300%Q) = Returns 0
  /\ within_tolerance 10 (py_nth [300; 100; 200]%Q 0) 300.
Proof.
  assert (H : result (find_closest_ion_mz_index 10 [300; 100; 200]%Q 300%Q)
              = Returns 0) by reflexivity.
  split; [exact H | ].
  exact (proj1 (proj2 (proj2 (find_closest_result_is_within_tolerance
                                10 [300; 100; 200]%Q 300%Q 0 H)))).
Defined.

(** X2.  On a sorted axis and for a positive target, the entry at an
    index that [find_closest_ion_mz_index] returns is the closest of the
    whole axis: no entry has a smaller error. *)
Theorem find_closest_result_is_closest_on_axis
        (allowed : Q) (axis : list Q) (t : Q) (r : Z) :
  sortedb axis = true ->
  (0 < t)%Q ->
  result (find_closest_ion_mz_index allowed axis t) = Returns r ->
  forall a, In a axis -> (ppm (py_nth axis r) t <= ppm a t)%Q.
Proof.
  intros Hs Hpos H a Hin.
  destruct (find_closest_cases allowed axis t)
    as [[_ E] | [[_ [_ E]] | [Hne [Ht E]]]]; rewrite E in *; try discriminate.
  set (c := scan_position axis t) in *.
  destruct (In_nth axis a 0%Q Hin) as [k [Hk Hnth]].
  assert (Hnear : (ppm (py_nth axis c) t <= ppm a t)%Q
                  \/ (ppm (py_nth axis (c - 1)) t <= ppm a t)%Q).
  { destruct (nearest_candidate axis t k Hs Hk) as [Hc | Hc];
      rewrite Hnth in Hc; [left | right]; now apply ppm_monotone. }
  destruct (choose_cases allowed (ppm (py_nth axis (c - 1)) t)
                         (ppm (py_nth axis c) t) c)
    as [[E' [H1 H2]] | [[E' [H1 H2]] | [E' _]]];
    rewrite E' in *; try discriminate; inversion H; subst r.
  - destruct Hnear as [Hn | Hn]; [ | exact Hn].
    now apply Qle_trans with (ppm (py_nth axis c) t).
  - destruct Hnear as [Hn | Hn]; [exact Hn | ].
    apply Qle_trans with (ppm (py_nth axis (c - 1)) t); [ | exact Hn].
    now apply Qlt_le_weak.
Qed.

Lemma find_closest_result_is_closest_on_axis_witness :
  sortedb [100; 200; 300]%Q = true
  /\ (0 < 200.001)%Q
  /\ result (find_closest_ion_mz_index 10 [100; 200; 300]%Q 200.001%Q) = Returns 1
  /\ forall a, In a [100; 200; 300]%Q ->
               (ppm (py_nth [100; 200; 300]%Q 1) 200.001 <= ppm a 200.001)%Q.
Proof.
  assert (Hs : sortedb [100; 200; 300]%Q = true) by reflexivity.
  assert (Ht : (0 < 200.001)%Q) by reflexivity.
  assert (H : result (find_closest_ion_mz_index 10 [100; 200; 300]%Q 200.001%Q)
              = Returns 1) by reflexivity.
  split; [exact Hs | split; [exact Ht | split; [exact H | ]]].
  exact (find_closest_result_is_closest_on_axis
           10 [100; 200; 300]%Q 200.001%Q 1 Hs Ht H).
Defined.

Lemma increasingb_head (x : Q) (l : list Q) (k : nat) :
  increasingb (x :: l) = true -> (k < List.length l)%nat -> (x < nth k l 0)%Q.
Proof.
  revert x k. induction l as [ | y l IH]; intros x k Hs Hk; [simpl in Hk; lia | ].
  cbn [increasingb] in Hs. apply andb_true_iff in Hs as [Hxy Hs].
  apply Qlt_bool_iff in Hxy.
  destruct k as [ | k]; [exact Hxy | ].
  simpl nth. apply Qlt_trans with y; [exact Hxy | ].
  apply IH; [exact Hs | simpl in Hk; lia].
Qed.

Lemma increasingb_tail (x : Q) (l : list Q) :
  increasingb (x :: l) = true -> increasingb l = true.
Proof.
  destruct l as [ | y l]; [reflexivity | ].
  cbn [increasingb]. intros H. now apply andb_true_iff in H as [_ H].
Qed.

Lemma increasingb_nth (l : list Q) :
  increasingb l = true ->
  forall i j, (i < j < List.length l)%nat -> (nth i l 0 < nth j l 0)%Q.
Proof.
  induction l as [ | x l IH]; intros Hs i j Hij; [simpl in Hij; lia | ].
  destruct j as [ | j]; [lia | ]. destruct i as [ | i].
  - simpl nth at 1. change (nth (S j) (x :: l) 0%Q) with (nth j l 0%Q).
    apply increasingb_head; [exact Hs | simpl in Hij; lia].
  - change (nth i l 0 < nth j l 0)%Q.
    apply IH; [now apply increasingb_tail in Hs | simpl in Hij; lia].
Qed.

(** On a strictly increasing axis the first position not less than an
    entry is the position of that entry. *)
Lemma first_not_less_entry (axis : list Q) :
  increasingb axis = true ->
  forall k t, nth_error axis k = Some t -> first_not_less axis t = k.
Proof.
  induction axis as [ | x axis IH]; intros Hs k t Hk; [destruct k; discriminate | ].
  cbn [first_not_less]. destruct k as [ | k].
  - simpl in Hk. inversion Hk; subst x.
    replace (Qlt_bool t t) with false; [reflexivity | ].
    symmetry. apply Qlt_bool_false_iff. apply Qle_refl.
  - simpl in Hk.
    assert (Hlen : (k < List.length axis)%nat) by (apply nth_error_Some; congruence).
    assert (Hx : (x < t)%Q).
    { rewrite <- (nth_error_nth axis k 0%Q Hk).
      now apply increasingb_head. }
    apply Qlt_bool_iff in Hx. rewrite Hx. f_equal.
    apply IH; [now apply increasingb_tail in Hs | exact Hk].
Qed.

Lemma ppm_self (t : Q) : (ppm t t == 0)%Q.
Proof.
  unfold ppm. setoid_replace (t - t)%Q with 0%Q by ring.
  change (Qabs 0) with 0%Q. unfold Qdiv. ring.
Qed.

Lemma ppm_positive (a t : Q) : (0 < t)%Q -> ~ (a == t)%Q -> (0 < ppm a t)%Q.
Proof.
  intros Ht Hat. unfold ppm.
  apply Qmult_lt_0_compat; [ | reflexivity].
  unfold Qdiv. apply Qmult_lt_0_compat; [ | now apply Qinv_lt_0_compat].
  destruct (Q_dec a t) as [[Hlt | Hgt] | Heq]; [ | | contradiction].
  - rewrite Qabs_neg by lra. lra.
  - rewrite Qabs_pos by lra. lra.
Qed.

(** X3.  On a strictly increasing axis of at least two entries, with a
    non-negative tolerance, the lookup of a positive entry of the axis
    returns the position of that entry. *)
Theorem find_closest_of_an_entry
        (allowed : Q) (axis : list Q) (k : nat) (t : Q) :
  increasingb axis = true ->
  2 <= len axis ->
  (0 <= allowed)%Q ->
  (0 < t)%Q ->
  nth_error axis k = Some t ->
  find_closest_ion_mz_index allowed axis t = ret (Z.of_nat k).
Proof.
  intros Hs Hlen Hallowed Hpos Hk.
  assert (Hklen : (k < List.length axis)%nat) by (apply nth_error_Some; congruence).
  assert (Hne : axis <> []) by (intros ->; simpl in Hklen; lia).
  assert (Ht : ~ (t == 0)%Q) by (intros H; rewrite H in Hpos; discriminate Hpos).
  rewrite (find_closest_unfold allowed axis t Hne (Qeq_bool_false t Ht)).
  assert (Hc : scan_position axis t = Z.of_nat k).
  { unfold scan_position. rewrite (first_not_less_entry axis Hs k t Hk).
    unfold len. lia. }
  rewrite Hc.
  assert (Hat : py_nth axis (Z.of_nat k) = t).
  { unfold py_nth. replace (Z.of_nat k <? 0) with false
      by (symmetry; apply Z.ltb_ge; lia).
    rewrite Nat2Z.id. now apply nth_error_nth. }
  rewrite Hat.
  assert (Hprev : (0 < ppm (py_nth axis (Z.of_nat k - 1)) t)%Q).
  { apply ppm_positive; [exact Hpos | ].
    unfold py_nth, len in *. destruct (Z.ltb_spec (Z.of_nat k - 1) 0) as [Hk0 | Hk1].
    - assert (k = O) by lia. subst k.
      rewrite <- (nth_error_nth axis 0 0%Q Hk).
      apply Qnot_eq_sym, Qlt_not_eq. apply increasingb_nth; [exact Hs | lia].
    - rewrite <- (nth_error_nth axis k 0%Q Hk).
      apply Qlt_not_eq. apply increasingb_nth; [exact Hs | lia]. }
  pose proof (ppm_self t) as Hnext.
  unfold choose.
  replace (Qle_bool (ppm (py_nth axis (Z.of_nat k - 1)) t) (ppm t t)) with false.
  - cbn [andb].
    replace (Qlt_bool (ppm t t) (ppm (py_nth axis (Z.of_nat k - 1)) t)) with true
      by (symmetry; apply Qlt_bool_iff; lra).
    replace (Qle_bool (ppm t t) allowed) with true
      by (symmetry; apply Qle_bool_iff; lra).
    reflexivity.
  - symmetry. destruct (Qle_bool _ _) eqn:E; [ | reflexivity].
    apply Qle_bool_iff in E. lra.
Qed.

Lemma find_closest_of_an_entry_witness :
  increasingb [100; 200; 300]%Q = true
  /\ 2 <= len [100; 200; 300]%Q
  /\ (0 <= 10)%Q /\ (0 < 300)%Q
  /\ nth_error [100; 200; 300]%Q 2 = Some 300%Q
  /\ find_closest_ion_mz_index 10 [100; 200; 300]%Q 300%Q = ret 2.
Proof.
  assert (H1 : increasingb [100; 200; 300]%Q = true) by reflexivity.
  assert (H2 : 2 <= len [100; 200; 300]%Q) by (vm_compute; discriminate).
  assert (H3 : (0 <= 10)%Q) by (apply Qle_bool_iff; reflexivity).
  assert (H4 : (0 < 300)%Q) by reflexivity.
  assert (H5 : nth_error [100; 200; 300]%Q 2 = Some 300%Q) by reflexivity.
  split; [exact H1 | split; [exact H2 | split; [exact H3 | ]]].
  split; [exact H4 | split; [exact H5 | ]].
  exact (find_closest_of_an_entry 10 [100; 200; 300]%Q 2 300%Q H1 H2 H3 H4 H5).
Defined.

(** X4.  Widening the tolerance keeps a match: a call that returns under
    one tolerance returns the same index, and prints nothing, under any
    larger one. *)
Theorem find_closest_wider_tolerance
        (allowed allowed' : Q) (axis : list Q) (t : Q) (r : Z) :
  (allowed <= allowed')%Q ->
  result (find_closest_ion_mz_index allowed axis t) = Returns r ->
  find_closest_ion_mz_index allowed' axis t = ret r.
Proof.
  intros Hle H.
  destruct (find_closest_cases allowed axis t)
    as [[_ E] | [[_ [_ E]] | [Hne [Ht E]]]]; rewrite E in *; try discriminate.
  rewrite (find_closest_unfold allowed' axis t Hne (Qeq_bool_false t Ht)).
  set (c := scan_position axis t) in *.
  set (prev := ppm (py_nth axis (c - 1)) t) in *.
  set (next := ppm (py_nth axis c) t) in *.
  destruct (choose_cases allowed prev next c)
    as [[E' [H1 H2]] | [[E' [H1 H2]] | [E' _]]];
    rewrite E' in *; try discriminate; inversion H; subst r; unfold choose.
  - replace (Qle_bool prev next) with true by (symmetry; now apply Qle_bool_iff).
    replace (Qle_bool prev allowed') with true
      by (symmetry; apply Qle_bool_iff; now apply Qle_trans with allowed).
    reflexivity.
  - replace (Qle_bool prev next) with false.
    + replace (Qlt_bool next prev) with true by (symmetry; now apply Qlt_bool_iff).
      replace (Qle_bool next allowed') with true
        by (symmetry; apply Qle_bool_iff; now apply Qle_trans with allowed).
      reflexivity.
    + symmetry. destruct (Qle_bool prev next) eqn:E2; [ | reflexivity].
      apply Qle_bool_iff in E2. exfalso. exact (Qlt_not_le _ _ H1 E2).
Qed.

Lemma find_closest_wider_tolerance_witness :
  (10 <= 50)%Q
  /\ result (find_closest_ion_mz_index 10 [100; 200; 300]%Q 200.001%Q) = Returns 1
  /\ find_closest_ion_mz_index 50 [100; 200; 300]%Q 200.001%Q = ret 1.
Proof.
  assert (H1 : (10 <= 50)%Q) by (apply Qle_bool_iff; reflexivity).
  assert (H2 : result (find_closest_ion_mz_index 10 [100; 200; 300]%Q 200.001%Q)
               = Returns 1) by reflexivity.
  split; [exact H1 | split; [exact H2 | ]].
  exact (find_closest_wider_tolerance 10 50 [100; 200; 300]%Q 200.001%Q 1 H1 H2).
Defined.

(** X5.  [find_closest_ion_mz_index] raises [IndexError] on the empty
    axis and on no other: reading the candidate before position 0 wraps
    to the last entry and never leaves the axis. *)
Theorem find_closest_index_error_iff_empty
        (allowed : Q) (axis : list Q) (t : Q) :
  result (find_closest_ion_mz_index allowed axis t) = Raises IndexError
  <-> axis = [].
Proof.
  destruct (find_closest_cases allowed axis t)
    as [[Hnil E] | [[Hne [_ E]] | [Hne [Ht E]]]]; rewrite E.
  - split; [intros _; exact Hnil | reflexivity].
  - split; [discriminate | contradiction].
  - split; [ | contradiction].
    destruct (choose_cases allowed
                (ppm (py_nth axis (scan_position axis t - 1)) t)
                (ppm (py_nth axis (scan_position axis t)) t)
                (scan_position axis t))
      as [[E' _] | [[E' _] | [E' _]]]; rewrite E'; discriminate.
Qed.

Lemma find_closest_index_error_iff_empty_witness :
  result (find_closest_ion_mz_index 10 [] 100%Q) = Raises IndexError
  /\ ~ result (find_closest_ion_mz_index 10 [100%Q] 250%Q) = Raises IndexError.
Proof.
  split.
  - exact (proj2 (find_closest_index_error_iff_empty 10 [] 100%Q) eq_refl).
  - intros H.
    apply (proj1 (find_closest_index_error_iff_empty 10 [100%Q] 250%Q)) in H.
    discriminate H.
Defined.

(** X6.  On an axis of a single entry the two candidates are that same
    entry: a target within the tolerance of it gets the index -1, and 0
    is never returned. *)
Theorem find_closest_single_entry (allowed a t : Q) :
  (within_tolerance allowed a t ->
   find_closest_ion_mz_index allowed [a] t = ret (-1))
  /\ (forall r, result (find_closest_ion_mz_index allowed [a] t) = Returns r ->
                r = -1).
Proof.
  assert (Hc : scan_position [a] t = 0).
  { unfold scan_position. cbn [first_not_less].
    destruct (Qlt_bool a t); reflexivity. }
  assert (Hchoose : forall b, Qle_bool (ppm a t) allowed = b ->
            choose allowed (ppm a t) (ppm a t) 0 =
            if b then ret (-1)
            else ([[VStr "ppms:"; VNum (ppm a t); VNum (ppm a t)]],
                  Raises (ValueError no_ion_message))).
  { intros b Hb. unfold choose.
    replace (Qle_bool (ppm a t) (ppm a t)) with true
      by (symmetry; apply Qle_bool_iff; apply Qle_refl).
    replace (Qlt_bool (ppm a t) (ppm a t)) with false
      by (symmetry; apply Qlt_bool_false_iff; apply Qle_refl).
    cbn [andb]. rewrite Hb. now destruct b. }
  split.
  - intros [Ht Hle].
    rewrite (find_closest_unfold allowed [a] t) by
        (discriminate || now apply Qeq_bool_false).
    rewrite Hc. change (py_nth [a] (0 - 1)) with a. change (py_nth [a] 0) with a.
    apply Qle_bool_iff in Hle. now rewrite (Hchoose true Hle).
  - intros r H.
    destruct (find_closest_cases allowed [a] t)
      as [[Hnil _] | [[_ [_ E]] | [Hne [Ht E]]]];
      [discriminate | rewrite E in H; discriminate | ].
    rewrite E, Hc in H.
    change (py_nth [a] (0 - 1)) with a in H. change (py_nth [a] 0) with a in H.
    rewrite (Hchoose _ eq_refl) in H.
    destruct (Qle_bool (ppm a t) allowed); simpl in H; [ | discriminate].
    now inversion H.
Qed.

Lemma find_closest_single_entry_witness :
  within_tolerance 10 100 100.001
  /\ find_closest_ion_mz_index 10 [100%Q] 100.001%Q = ret (-1).
Proof.
  assert (H : within_tolerance 10 100 100.001).
  { split; [intros H; discriminate H | apply Qle_bool_iff; reflexivity]. }
  split; [exact H | ].
  exact (proj1 (find_closest_single_entry 10 100 100.001) H).
Defined.

(** ** [get_amino_acids_indices_in_data] *)

Section LookupAll.

Variable allowed : Q.
Variable aa_info : Type.
Variables (ions_mzs : list Q) (ions_names : list string) (mz_axis : list Q).

Local Abbreviation loop := (aa_loop allowed aa_info ions_mzs ions_names mz_axis).
Local Abbreviation is_present := (present aa_info ions_names).
Local Abbreviation lookup_of := (lookup allowed ions_mzs ions_names mz_axis).

Lemma aa_loop_complete todo :
  (forall entry, In entry todo -> is_present entry = true ->
                 exists i, result (lookup_of (fst entry)) = Returns i) ->
  forall acc1 acc2,
  exists idxs,
    result (loop todo acc1 acc2)
    = Returns ((acc1 ++ idxs)%list,
               (acc2 ++ map fst (filter is_present todo))%list)
    /\ Forall2 (fun entry i => result (lookup_of (fst entry)) = Returns i)
               (filter is_present todo) idxs.
Proof.
  induction todo as [ | [name info] todo IH]; intros Hall acc1 acc2.
  - exists []. simpl. rewrite !app_nil_r. split; [reflexivity | constructor].
  - cbn [filter].
    change (is_present (name, info)) with (contains name ions_names).
    destruct (contains name ions_names) eqn:E.
    + destruct (Hall (name, info) (or_introl eq_refl) E) as [i Hi].
      cbn [fst] in Hi.
      destruct (IH (fun entry Hin => Hall entry (or_intror Hin))
                   (acc1 ++ [i])%list (acc2 ++ [name])%list) as [idxs [Hr Hf]].
      exists (i :: idxs). rewrite aa_loop_present by assumption.
      rewrite (result_bind _ _ i Hi), Hr, <- !app_assoc.
      split; [reflexivity | now constructor].
    + destruct (IH (fun entry Hin => Hall entry (or_intror Hin)) acc1 acc2)
        as [idxs [Hr Hf]].
      exists idxs. rewrite aa_loop_absent by assumption.
      rewrite (result_bind _ _ tt) by reflexivity. now split.
Qed.

Lemma aa_loop_first_failure pre :
  forall name info post e acc1 acc2,
    (forall entry, In entry pre -> is_present entry = true ->
                   exists i, result (lookup_of (fst entry)) = Returns i) ->
    contains name ions_names = true ->
    result (lookup_of name) = Raises e ->
    result (loop (pre ++ (name, info) :: post) acc1 acc2) = Raises e.
Proof.
  induction pre as [ | [name' info'] pre IH];
    intros name info post e acc1 acc2 Hall Hc He.
  - simpl app. rewrite aa_loop_present by assumption.
    destruct (lookup_of name) as [out r]. simpl in *. now rewrite He.
  - simpl app. destruct (contains name' ions_names) eqn:E.
    + destruct (Hall (name', info') (or_introl eq_refl) E) as [i Hi].
      cbn [fst] in Hi. rewrite aa_loop_present by assumption.
      rewrite (result_bind _ _ i Hi).
      apply IH; auto. intros entry Hin. apply Hall. now right.
    + rewrite aa_loop_absent by assumption.
      rewrite (result_bind _ _ tt) by reflexivity.
      apply IH; auto. intros entry Hin. apply Hall. now right.
Qed.

End LookupAll.

(** X7.  When the lookup of every name of the reference list that is
    among the ion names returns, [get_amino_acids_indices_in_data]
    returns: the names found, in the order of the reference list, and for
    each of them the index its lookup returns. *)
Theorem get_amino_acids_indices_returns
        (allowed : Q) (aa_info : Type) (amino_acids : list (string * aa_info))
        (ions_mzs : list Q) (ions_names : list string) (mz_axis : list Q) :
  (forall entry,
      In entry amino_acids -> present aa_info ions_names entry = true ->
      exists i, result (lookup allowed ions_mzs ions_names mz_axis (fst entry))
                = Returns i) ->
  exists aa_mz_indices,
    result (get_amino_acids_indices_in_data
              allowed aa_info amino_acids ions_mzs ions_names mz_axis)
    = Returns (aa_mz_indices,
               map fst (filter (present aa_info ions_names) amino_acids))
    /\ Forall2 (fun entry i =>
                  result (lookup allowed ions_mzs ions_names mz_axis (fst entry))
                  = Returns i)
               (filter (present aa_info ions_names) amino_acids) aa_mz_indices.
Proof.
  intros Hall. unfold get_amino_acids_indices_in_data.
  exact (aa_loop_complete allowed aa_info ions_mzs ions_names mz_axis
                          amino_acids Hall [] []).
Qed.

Lemma get_amino_acids_indices_returns_witness :
  exists aa_mz_indices,
    result (get_amino_acids_indices_in_data
              10 unit [("ala", tt); ("gly", tt); ("ser", tt)]%string
              [200; 100]%Q ["gly"; "ser"]%string [100; 200]%Q)
    = Returns (aa_mz_indices, ["gly"; "ser"]%string)
    /\ Forall2 (fun entry i =>
                  result (lookup 10 [200; 100]%Q ["gly"; "ser"]%string
                                 [100; 200]%Q (fst entry)) = Returns i)
               [("gly", tt); ("ser", tt)]%string aa_mz_indices.
Proof.
  apply (get_amino_acids_indices_returns
           10 unit [("ala", tt); ("gly", tt); ("ser", tt)]%string
           [200; 100]%Q ["gly"; "ser"]%string [100; 200]%Q).
  intros entry [<- | [<- | [<- | []]]] Hp; try discriminate Hp.
  - exists 1. reflexivity.
  - exists 0. reflexivity.
Defined.

(** X8.  The exception of [get_amino_acids_indices_in_data] is that of
    the first lookup that raises: when the lookups of the names found
    before a name all return and the lookup of that name raises, the
    function raises the same exception, whatever follows in the reference
    list. *)
Theorem get_amino_acids_indices_first_failure
        (allowed : Q) (aa_info : Type)
        (before after : list (string * aa_info)) (name : string) (info : aa_info)
        (ions_mzs : list Q) (ions_names : list string) (mz_axis : list Q)
        (e : exn) :
  (forall entry,
      In entry before -> present aa_info ions_names entry = true ->
      exists i, result (lookup allowed ions_mzs ions_names mz_axis (fst entry))
                = Returns i) ->
  contains name ions_names = true ->
  result (lookup allowed ions_mzs ions_names mz_axis name) = Raises e ->
  result (get_amino_acids_indices_in_data
            allowed aa_info (before ++ (name, info) :: after)
            ions_mzs ions_names mz_axis)
  = Raises e.
Proof.
  intros Hall Hc He. unfold get_amino_acids_indices_in_data.
  now apply aa_loop_first_failure.
Qed.

Lemma get_amino_acids_indices_first_failure_witness :
  result (get_amino_acids_indices_in_data
            10 unit ([("gly"%string, tt)] ++ ("ser"%string, tt)
                                           :: [("ala"%string, tt)])%list
            [200; 150]%Q ["gly"; "ser"]%string [100; 200]%Q)
  = Raises (ValueError "No ion within current ppm identified!").
Proof.
  apply (get_amino_acids_indices_first_failure
           10 unit [("gly", tt)]%string [("ala", tt)]%string "ser"%string tt
           [200; 150]%Q ["gly"; "ser"]%string [100; 200]%Q).
  - intros entry [<- | []] _. exists 1. reflexivity.
  - reflexivity.
  - reflexivity.
Defined.

(** ** [get_intensities_data_structure] *)

Lemma Forall2_length_eq {A B} (P : A -> B -> Prop) (l : list A) (l' : list B) :
  Forall2 P l l' -> List.length l = List.length l'.
Proof. induction 1; simpl; congruence. Qed.

Lemma getitem_returns {A} (l : list A) (i : Z) (a : A) :
  result (getitem l i) = Returns a -> getitem l i = ret a.
Proof.
  unfold getitem. destruct (norm_index (len l) i); [ | discriminate].
  destruct (nth_error l n); [ | discriminate].
  simpl. now intros [= ->].
Qed.

Lemma getitem_outside {A} (l : list A) (i : Z) :
  ~ (- len l <= i < len l) -> getitem l i = raise IndexError.
Proof.
  intros Hi. unfold getitem, norm_index.
  destruct (Z.ltb_spec i 0) as [Hneg | Hpos].
  - replace (0 <=? len l + i) with false; [reflexivity | ].
    symmetry. apply Z.leb_gt. pose proof (len_nonneg l). lia.
  - replace (i <? len l) with false; [now rewrite andb_false_r | ].
    symmetry. apply Z.ltb_ge. lia.
Qed.

Lemma getitem_wrap {A} (l : list A) (i : Z) :
  - len l <= i < 0 -> getitem l i = getitem l (len l + i).
Proof.
  intros Hi. unfold getitem, norm_index.
  replace (i <? 0) with true by (symmetry; apply Z.ltb_lt; lia).
  replace (len l + i <? 0) with false by (symmetry; apply Z.ltb_ge; lia).
  reflexivity.
Qed.

Lemma where_from_range (names : list string) (id : string) :
  forall i c, In c (where_from names id i) -> i <= c < i + len names.
Proof.
  induction names as [ | x names IH]; intros i c Hc; [contradiction | ].
  rewrite len_cons. pose proof (len_nonneg names).
  cbn [where_from] in Hc.
  destruct (String.eqb x id); [destruct Hc as [<- | Hc]; [lia | ] | ];
    apply IH in Hc; lia.
Qed.

Lemma check_index_returns (n : Z) (cols : list Z) :
  forall js, result (mapM (check_index n) cols) = Returns js ->
             (forall c, In c cols -> 0 <= c) ->
             js = map Z.to_nat cols /\ forall c, In c cols -> c < n.
Proof.
  induction cols as [ | c cols IH]; intros js H Hpos.
  - simpl in H. inversion H. split; [reflexivity | intros c []].
  - rewrite mapM_cons in H.
    apply result_bind_returns in H as [j [Hj H]].
    apply result_bind_returns in H as [js' [Hjs H]].
    simpl in H. inversion H; subst js. clear H.
    destruct (IH js' Hjs (fun c' Hc' => Hpos c' (or_intror Hc'))) as [-> Hlt].
    assert (Hc : 0 <= c) by (apply Hpos; now left).
    unfold check_index, norm_index in Hj.
    replace (c <? 0) with false in Hj by (symmetry; apply Z.ltb_ge; lia).
    destruct ((0 <=? c) && (c <? n)) eqn:E; [ | discriminate].
    simpl in Hj. inversion Hj; subst j.
    apply andb_true_iff in E as [_ E]. apply Z.ltb_lt in E.
    split; [reflexivity | ]. intros c' [<- | Hc']; auto.
Qed.

Lemma check_index_total (n : Z) (cols : list Z) :
  (forall c, In c cols -> 0 <= c < n) ->
  mapM (check_index n) cols = ret (map Z.to_nat cols).
Proof.
  induction cols as [ | c cols IH]; intros H; [reflexivity | ].
  rewrite mapM_cons. unfold check_index at 1, norm_index.
  assert (Hc : 0 <= c < n) by (apply H; now left).
  replace (c <? 0) with false by (symmetry; apply Z.ltb_ge; lia).
  replace (0 <=? c) with true by (symmetry; apply Z.leb_le; lia).
  replace (c <? n) with true by (symmetry; apply Z.ltb_lt; lia).
  cbn [andb]. rewrite bind_ret_l, IH, bind_ret_l; [reflexivity | ].
  intros c' Hc'. apply H. now right.
Qed.

Lemma np_where_nonneg (names : list string) (id : string) (c : Z) :
  In c (np_where names id) -> 0 <= c < len names.
Proof. intros H. apply where_from_range in H. lia. Qed.

(** One row of the structure: [data[mz_index, columns of id]]. *)
Lemma nd_row_cols_returns (data : ndarray) (colnames : list string)
      (mz_index : Z) (id : string) (v : list Q) :
  result (nd_row_cols data mz_index (np_where colnames id)) = Returns v ->
  exists row,
    getitem (rows data) mz_index = ret row
    /\ v = map (fun c => nth (Z.to_nat c) row 0%Q) (np_where colnames id)
    /\ forall c, In c (np_where colnames id) -> c < ncols data.
Proof.
  unfold nd_row_cols. intros H.
  apply result_bind_returns in H as [row [Hrow H]].
  apply result_bind_returns in H as [js [Hjs H]].
  simpl in H. inversion H; subst v. clear H.
  destruct (check_index_returns _ _ _ Hjs) as [-> Hlt].
  { intros c Hc. apply np_where_nonneg in Hc. lia. }
  exists row. split; [now apply getitem_returns | ].
  split; [now rewrite map_map | exact Hlt].
Qed.

(** X9.  When [get_intensities_data_structure] returns, its result has
    one entry for each index given, in their order, and in it one series
    for each experiment of [list(set(colnames))], in that order: the
    values of the row of [data] at that index (a Python index), at the
    columns whose name is that experiment, in the order of the columns. *)
Theorem get_intensities_structure
        (list_set : list string -> list string) (data : ndarray)
        (colnames : list string) (aa_mz_indices : list Z)
        (aa_intensities : list (list (list Q))) :
  result (get_intensities_data_structure list_set data colnames aa_mz_indices)
  = Returns aa_intensities ->
  List.length aa_intensities = List.length aa_mz_indices
  /\ forall i mz_index,
      nth_error aa_mz_indices i = Some mz_index ->
      exists experiments,
        nth_error aa_intensities i = Some experiments
        /\ List.length experiments = List.length (list_set colnames)
        /\ forall j id,
            nth_error (list_set colnames) j = Some id ->
            exists row,
              getitem (rows data) mz_index = ret row
              /\ nth_error experiments j
                 = Some (map (fun c => nth (Z.to_nat c) row 0%Q)
                             (np_where colnames id)).
Proof.
  unfold get_intensities_data_structure. intros H.
  apply mapM_returns in H.
  split; [symmetry; exact (Forall2_length_eq _ _ _ H) | ].
  intros i mz_index Hi.
  destruct (Forall2_nth_error _ _ _ H i mz_index Hi) as [experiments [He Hrow]].
  exists experiments. split; [exact He | ].
  apply mapM_returns in Hrow.
  split; [symmetry; exact (Forall2_length_eq _ _ _ Hrow) | ].
  intros j id Hj.
  destruct (Forall2_nth_error _ _ _ Hrow j id Hj) as [v [Hv Hcell]].
  destruct (nd_row_cols_returns _ _ _ _ _ Hcell) as [row [Hget [-> _]]].
  exists row. now split.
Qed.

Lemma get_intensities_structure_witness :
  let data := mk_ndarray 3 [[1; 2; 3]; [4; 5; 6]]%Q in
  let list_set := fun _ : list string => ["b"; "a"]%string in
  result (get_intensities_data_structure
            list_set data ["a"; "b"; "a"]%string [1; -1])
  = Returns [[[5]; [4; 6]]; [[5]; [4; 6]]]%Q
  /\ List.length [[[5]; [4; 6]]; [[5]; [4; 6]]]%Q = List.length [1; -1].
Proof.
  intros data list_set.
  assert (H : result (get_intensities_data_structure
                        list_set data ["a"; "b"; "a"]%string [1; -1])
              = Returns [[[5]; [4; 6]]; [[5]; [4; 6]]]%Q) by reflexivity.
  split; [exact H | ].
  exact (proj1 (get_intensities_structure
                  list_set data ["a"; "b"; "a"]%string [1; -1] _ H)).
Defined.

Lemma mapM_map_ext {A A' B} (f : A -> M B) (g : A' -> M B) (h : A -> A')
      (l : list A) :
  (forall a, In a l -> f a = g (h a)) -> mapM f l = mapM g (map h l).
Proof.
  induction l as [ | a l IH]; intros H; [reflexivity | ].
  cbn [map]. rewrite !mapM_cons, (H a (or_introl eq_refl)), IH; [reflexivity | ].
  intros a' Ha'. apply H. now right.
Qed.

(** X10.  A negative index selects a row of [data] from its end, as
    Python indexing does: with -1, which [find_closest_ion_mz_index] can
    return, the intensities are those of the last row.  No index at or
    above [-len(data)] is refused for being negative. *)
Theorem get_intensities_negative_index
        (list_set : list string -> list string) (data : ndarray)
        (colnames : list string) (aa_mz_indices : list Z) :
  (forall i, In i aa_mz_indices -> - len (rows data) <= i) ->
  get_intensities_data_structure list_set data colnames aa_mz_indices
  = get_intensities_data_structure
      list_set data colnames
      (map (fun i => if i <? 0 then len (rows data) + i else i) aa_mz_indices).
Proof.
  intros H. unfold get_intensities_data_structure.
  apply mapM_map_ext. intros i Hi.
  specialize (H i Hi).
  destruct (Z.ltb_spec i 0) as [Hneg | Hpos]; [ | reflexivity].
  unfold nd_row_cols. rewrite getitem_wrap by lia. reflexivity.
Qed.

Lemma get_intensities_negative_index_witness :
  let data := mk_ndarray 3 [[1; 2; 3]; [4; 5; 6]]%Q in
  let list_set := fun _ : list string => ["b"; "a"]%string in
  (forall i, In i [-1] -> - len (rows data) <= i)
  /\ get_intensities_data_structure list_set data ["a"; "b"; "a"]%string [-1]
     = get_intensities_data_structure list_set data ["a"; "b"; "a"]%string [1].
Proof.
  intros data list_set.
  assert (H : forall i, In i [-1] -> - len (rows data) <= i).
  { intros i [<- | []]. vm_compute. discriminate. }
  split; [exact H | ].
  exact (get_intensities_negative_index
           list_set data ["a"; "b"; "a"]%string [-1] H).
Defined.

Lemma index_error_only_bind {A B} (m : M A) (k : A -> M B) :
  index_error_only m -> (forall a, index_error_only (k a)) ->
  index_error_only (bind m k).
Proof.
  intros [Hm | [a Hm]] Hk.
  - left. destruct m as [out r]. simpl in *. now rewrite Hm.
  - unfold index_error_only. rewrite (result_bind _ _ a Hm). apply Hk.
Qed.

Lemma index_error_only_ret {A} (a : A) : index_error_only (ret a).
Proof. right. now exists a. Qed.

Lemma index_error_only_mapM {A B} (f : A -> M B) (l : list A) :
  (forall a, In a l -> index_error_only (f a)) -> index_error_only (mapM f l).
Proof.
  induction l as [ | a l IH]; intros H; [apply index_error_only_ret | ].
  rewrite mapM_cons. apply index_error_only_bind; [apply H; now left | ].
  intros b. apply index_error_only_bind.
  - apply IH. intros a' Ha'. apply H. now right.
  - intros bs. apply index_error_only_ret.
Qed.

Lemma index_error_only_getitem {A} (l : list A) (i : Z) :
  index_error_only (getitem l i).
Proof.
  unfold getitem. destruct (norm_index (len l) i); [ | now left].
  destruct (nth_error l n) as [a | ]; [right; now exists a | now left].
Qed.

Lemma index_error_only_check_index (n i : Z) : index_error_only (check_index n i).
Proof.
  unfold check_index. destruct (norm_index n i) as [j | ]; [right; now exists j | now left].
Qed.

Lemma index_error_only_nd_row_cols (data : ndarray) (r : Z) (cols : list Z) :
  index_error_only (nd_row_cols data r cols).
Proof.
  unfold nd_row_cols. apply index_error_only_bind; [apply index_error_only_getitem | ].
  intros row. apply index_error_only_bind.
  - apply index_error_only_mapM. intros c _. apply index_error_only_check_index.
  - intros js. apply index_error_only_ret.
Qed.

(** A traversal of calls that return or raise [IndexError] raises it as
    soon as one of the calls does. *)
Lemma mapM_raises_index_error {A B} (f : A -> M B) (l : list A) (a : A) :
  (forall a', In a' l -> index_error_only (f a')) ->
  In a l -> result (f a) = Raises IndexError ->
  result (mapM f l) = Raises IndexError.
Proof.
  induction l as [ | x l IH]; intros Hall Hin Ha; [contradiction | ].
  rewrite mapM_cons.
  destruct (Hall x (or_introl eq_refl)) as [Hx | [b Hx]].
  - destruct (f x) as [out r]. simpl in *. now rewrite Hx.
  - rewrite (result_bind _ _ b Hx).
    destruct Hin as [-> | Hin]; [congruence | ].
    assert (Hl : result (mapM f l) = Raises IndexError).
    { apply IH; auto. intros a' Ha'. apply Hall. now right. }
    destruct (mapM f l) as [out r]. simpl in *. now rewrite Hl.
Qed.

(** X11.  [get_intensities_data_structure] ends by returning or by
    raising [IndexError], nothing else; and with at least one experiment
    it raises [IndexError] as soon as one of the indices is outside
    [-len(data) .. len(data) - 1]. *)
Theorem get_intensities_index_error
        (list_set : list string -> list string) (data : ndarray)
        (colnames : list string) (aa_mz_indices : list Z) :
  index_error_only
    (get_intensities_data_structure list_set data colnames aa_mz_indices)
  /\ (list_set colnames <> [] ->
      forall i, In i aa_mz_indices ->
                ~ (- len (rows data) <= i < len (rows data)) ->
                result (get_intensities_data_structure
                          list_set data colnames aa_mz_indices)
                = Raises IndexError).
Proof.
  unfold get_intensities_data_structure.
  assert (Hinner : forall mz_index,
             index_error_only
               (mapM (fun id => nd_row_cols data mz_index (np_where colnames id))
                     (list_set colnames))).
  { intros mz_index. apply index_error_only_mapM.
    intros id _. apply index_error_only_nd_row_cols. }
  split.
  - apply index_error_only_mapM. intros mz_index _. apply Hinner.
  - intros Hids i Hi Hout.
    apply (mapM_raises_index_error _ _ i); [intros; apply Hinner | exact Hi | ].
    destruct (list_set colnames) as [ | id ids] eqn:E; [congruence | ].
    apply (mapM_raises_index_error _ _ id).
    + intros id' _. apply index_error_only_nd_row_cols.
    + now left.
    + unfold nd_row_cols. now rewrite (getitem_outside _ _ Hout).
Qed.

Lemma get_intensities_index_error_witness :
  let data := mk_ndarray 3 [[1; 2; 3]; [4; 5; 6]]%Q in
  let list_set := fun _ : list string => ["b"; "a"]%string in
  result (get_intensities_data_structure
            list_set data ["a"; "b"; "a"]%string [0; 2])
  = Raises IndexError.
Proof.
  intros data list_set.
  apply (proj2 (get_intensities_index_error
                  list_set data ["a"; "b"; "a"]%string [0; 2])) with (i := 2).
  - discriminate.
  - simpl. auto.
  - vm_compute. intros [_ H]. discriminate H.
Defined.

(** ** [get_tic_normalized_amino_acid_values] *)

Lemma range_length (k : Z) : List.length (range k) = Z.to_nat k.
Proof. unfold range. now rewrite length_map, length_seq. Qed.

Lemma range_In (k x : Z) :
  In x (range k) -> exists i : nat, x = Z.of_nat i /\ Z.of_nat i < k.
Proof.
  unfold range. intros H. apply in_map_iff in H as [i [<- Hi]].
  apply in_seq in Hi. exists i. split; [reflexivity | lia].
Qed.

Lemma mapM_total {A B} (f : A -> M B) (l : list A) :
  (forall a, In a l -> exists b, result (f a) = Returns b) ->
  exists bs, result (mapM f l) = Returns bs.
Proof.
  induction l as [ | a l IH]; intros H; [now exists [] | ].
  destruct (H a (or_introl eq_refl)) as [b Hb].
  destruct (IH (fun a' Ha' => H a' (or_intror Ha'))) as [bs Hbs].
  exists (b :: bs). rewrite mapM_cons, (result_bind _ _ b Hb).
  now rewrite (result_bind _ _ bs Hbs).
Qed.

Lemma Forall2_nth_error_r {A B} (P : A -> B -> Prop) (l : list A) (l' : list B) :
  Forall2 P l l' ->
  forall i b, nth_error l' i = Some b ->
              exists a, nth_error l i = Some a /\ P a b.
Proof.
  induction 1 as [ | x y l l' Hxy _ IH]; intros i b Hi.
  - destruct i; discriminate.
  - destruct i as [ | i]; simpl in *.
    + inversion Hi; subst. now exists x.
    + now apply IH.
Qed.

Lemma Forall2_of_nth {A B} (P : A -> B -> Prop) (l : list A) :
  forall l' : list B,
    List.length l = List.length l' ->
    (forall i a b, nth_error l i = Some a -> nth_error l' i = Some b -> P a b) ->
    Forall2 P l l'.
Proof.
  induction l as [ | a l IH]; intros [ | b l'] Hlen H; try discriminate Hlen.
  - constructor.
  - constructor; [exact (H O a b eq_refl eq_refl) | ].
    apply IH; [simpl in Hlen; lia | ].
    intros i a' b' Ha' Hb'. exact (H (S i) a' b' Ha' Hb').
Qed.

(** One cell of the normalised structure. *)
Lemma tic_cell (scaling_factor : Q) (list_set : list string -> list string)
      (data : ndarray) (colnames : list string)
      (aa_intensities : list (list (list Q)))
      (normalized : list (list (list (option Q)))) :
  result (get_tic_normalized_amino_acid_values
            scaling_factor list_set data colnames aa_intensities)
  = Returns normalized ->
  List.length normalized = List.length aa_intensities
  /\ forall i aa_i,
      nth_error aa_intensities i = Some aa_i ->
      exists normalized_i,
        nth_error normalized i = Some normalized_i
        /\ List.length normalized_i = List.length (list_set colnames)
        /\ forall j raw,
            nth_error aa_i j = Some raw ->
            (j < List.length (list_set colnames))%nat ->
            exists cols,
              result (nd_all_cols data
                        (np_where colnames (nth j (list_set colnames) ""%string)))
              = Returns cols
              /\ nth_error normalized_i j
                 = Some (map (fun v => np_mul (np_truediv v (np_sum cols))
                                              scaling_factor) raw).
Proof.
  unfold get_tic_normalized_amino_acid_values. intros Hret.
  apply mapM_returns in Hret.
  split.
  { rewrite <- (Forall2_length_eq _ _ _ Hret), range_length.
    unfold len. lia. }
  intros i aa_i Hi.
  assert (Hir : nth_error (range (len aa_intensities)) i = Some (Z.of_nat i)).
  { apply nth_error_range. unfold len.
    assert (i < List.length aa_intensities)%nat by (apply nth_error_Some; congruence).
    lia. }
  destruct (Forall2_nth_error _ _ _ Hret i _ Hir) as [normalized_i [Hni Hrow]].
  apply mapM_returns in Hrow.
  exists normalized_i. split; [exact Hni | split].
  { rewrite <- (Forall2_length_eq _ _ _ Hrow), range_length.
    unfold len. lia. }
  intros j raw Hj Hjlen.
  assert (Hjr : nth_error (range (len (list_set colnames))) j = Some (Z.of_nat j)).
  { apply nth_error_range. unfold len. lia. }
  destruct (Forall2_nth_error _ _ _ Hrow j _ Hjr) as [normalized_ij [Hnj Hcell]].
  rewrite (getitem_nth_error _ _ _ Hi), bind_ret_l in Hcell.
  rewrite (getitem_nth_error _ _ _ Hj), bind_ret_l in Hcell.
  rewrite Nat2Z.id in Hcell.
  apply result_bind_returns in Hcell as [cols [Hcols Hcell]].
  simpl in Hcell. inversion Hcell; subst normalized_ij.
  exists cols. now split.
Qed.

(** X13.  An experiment whose columns sum to zero, as one that has no
    column at all, makes no error: every normalised value of that
    experiment is a non-finite number ([inf] or [nan]). *)
Theorem tic_normalization_zero_total
        (scaling_factor : Q) (list_set : list string -> list string)
        (data : ndarray) (colnames : list string)
        (aa_intensities : list (list (list Q)))
        (normalized : list (list (list (option Q)))) :
  result (get_tic_normalized_amino_acid_values
            scaling_factor list_set data colnames aa_intensities)
  = Returns normalized ->
  forall (i j : nat) (aa_i : list (list Q)) (raw : list Q) (cols : list (list Q)),
    nth_error aa_intensities i = Some aa_i ->
    nth_error aa_i j = Some raw ->
    (j < List.length (list_set colnames))%nat ->
    result (nd_all_cols data
              (np_where colnames (nth j (list_set colnames) ""%string)))
    = Returns cols ->
    (np_sum cols == 0)%Q ->
    exists normalized_i,
      nth_error normalized i = Some normalized_i
      /\ nth_error normalized_i j = Some (map (fun _ => None) raw).
Proof.
  intros Hret i j aa_i raw cols Hi Hj Hjlen Hcols Hzero.
  destruct (tic_cell _ _ _ _ _ _ Hret) as [_ Hcell].
  destruct (Hcell i aa_i Hi) as [normalized_i [Hni [_ Hvalues]]].
  destruct (Hvalues j raw Hj Hjlen) as [cols' [Hcols' Hnij]].
  rewrite Hcols in Hcols'. inversion Hcols'; subst cols'.
  exists normalized_i. split; [exact Hni | ].
  rewrite Hnij. f_equal. apply map_ext. intros v.
  unfold np_truediv. apply Qeq_bool_iff in Hzero. now rewrite Hzero.
Qed.

Lemma tic_normalization_zero_total_witness :
  let data := mk_ndarray 2 [[0; 2]; [0; 3]]%Q in
  let list_set := fun _ : list string => ["a"; "b"]%string in
  let normalized := [[[None]; [Some (20 # 5)]]] in
  result (get_tic_normalized_amino_acid_values
            10 list_set data ["a"; "b"]%string [[[0]; [2]]]%Q)
  = Returns normalized
  /\ (np_sum [[0]; [0]]%Q == 0)%Q
  /\ exists normalized_i,
      nth_error normalized 0 = Some normalized_i
      /\ nth_error normalized_i 0 = Some (map (fun _ => None) [0%Q]).
Proof.
  intros data list_set normalized.
  assert (Hret : result (get_tic_normalized_amino_acid_values
                           10 list_set data ["a"; "b"]%string [[[0]; [2]]]%Q)
                 = Returns normalized) by reflexivity.
  assert (Hzero : (np_sum [[0]; [0]]%Q == 0)%Q) by reflexivity.
  split; [exact Hret | split; [exact Hzero | ]].
  refine (tic_normalization_zero_total
            10 list_set data ["a"; "b"]%string [[[0]; [2]]]%Q normalized Hret
            0%nat 0%nat [[0]; [2]]%Q [0%Q] [[0]; [0]]%Q _ _ _ _ Hzero);
    try reflexivity.
  simpl. lia.
Defined.

(** The series of one entry of the structure of intensities. *)
Lemma get_intensities_entry
      (list_set : list string -> list string) (data : ndarray)
      (colnames : list string) (aa_mz_indices : list Z)
      (aa_intensities : list (list (list Q))) :
  result (get_intensities_data_structure list_set data colnames aa_mz_indices)
  = Returns aa_intensities ->
  forall i experiments,
    nth_error aa_intensities i = Some experiments ->
    exists mz_index,
      nth_error aa_mz_indices i = Some mz_index
      /\ Forall2 (fun id v =>
                    result (nd_row_cols data mz_index (np_where colnames id))
                    = Returns v)
                 (list_set colnames) experiments.
Proof.
  unfold get_intensities_data_structure. intros H i experiments Hi.
  apply mapM_returns in H.
  destruct (Forall2_nth_error_r _ _ _ H i experiments Hi) as [mz_index [Hm Hrow]].
  exists mz_index. split; [exact Hm | now apply mapM_returns].
Qed.

(** X12.  The structure that [get_intensities_data_structure] returns is
    accepted by [get_tic_normalized_amino_acid_values] on the same data
    and column names: the normalisation returns, without an
    [IndexError], a structure of the same shape. *)
Theorem tic_normalization_accepts_intensities
        (scaling_factor : Q) (list_set : list string -> list string)
        (data : ndarray) (colnames : list string) (aa_mz_indices : list Z)
        (aa_intensities : list (list (list Q))) :
  result (get_intensities_data_structure list_set data colnames aa_mz_indices)
  = Returns aa_intensities ->
  exists normalized,
    result (get_tic_normalized_amino_acid_values
              scaling_factor list_set data colnames aa_intensities)
    = Returns normalized
    /\ Forall2 (Forall2 (fun (raw : list Q) (values : list (option Q)) =>
                           List.length values = List.length raw))
               aa_intensities normalized.
Proof.
  intros Hint.
  assert (Hexists : exists normalized,
             result (get_tic_normalized_amino_acid_values
                       scaling_factor list_set data colnames aa_intensities)
             = Returns normalized).
  { unfold get_tic_normalized_amino_acid_values.
    apply mapM_total. intros x Hx.
    apply range_In in Hx as [i [-> Hi]].
    destruct (nth_error aa_intensities i) as [aa_i | ] eqn:Ei.
    2:{ apply nth_error_None in Ei. unfold len in Hi. lia. }
    destruct (get_intensities_entry _ _ _ _ _ Hint i aa_i Ei)
      as [mz_index [_ Hrow]].
    apply mapM_total. intros y Hy.
    apply range_In in Hy as [j [-> Hj]].
    rewrite (getitem_nth_error _ _ _ Ei), bind_ret_l.
    destruct (nth_error (list_set colnames) j) as [id | ] eqn:Eid.
    2:{ apply nth_error_None in Eid. unfold len in Hj. lia. }
    destruct (Forall2_nth_error _ _ _ Hrow j id Eid) as [v [Hv Hcell]].
    rewrite (getitem_nth_error _ _ _ Hv), bind_ret_l, Nat2Z.id.
    rewrite (nth_error_nth _ _ ""%string Eid).
    destruct (nd_row_cols_returns _ _ _ _ _ Hcell) as [row [_ [_ Hlt]]].
    unfold nd_all_cols. rewrite check_index_total, bind_ret_l.
    - rewrite bind_ret_l. eexists. reflexivity.
    - intros c Hc. split; [ | now apply Hlt].
      apply np_where_nonneg in Hc. lia. }
  destruct Hexists as [normalized Hret]. exists normalized.
  split; [exact Hret | ].
  destruct (tic_cell _ _ _ _ _ _ Hret) as [Hlen Hcell].
  apply Forall2_of_nth; [now symmetry | ].
  intros i aa_i normalized_i Hi Hni.
  destruct (Hcell i aa_i Hi) as [normalized_i' [Hni' [Hlen' Hvalues]]].
  rewrite Hni in Hni'. inversion Hni'; subst normalized_i'. clear Hni'.
  destruct (get_intensities_entry _ _ _ _ _ Hint i aa_i Hi) as [mz_index [_ Hrow]].
  apply Forall2_of_nth.
  { rewrite Hlen'. symmetry. exact (Forall2_length_eq _ _ _ Hrow). }
  intros j raw values Hj Hv.
  assert (Hjlen : (j < List.length (list_set colnames))%nat).
  { rewrite (Forall2_length_eq _ _ _ Hrow). apply nth_error_Some. congruence. }
  destruct (Hvalues j raw Hj Hjlen) as [cols [_ Hnij]].
  rewrite Hv in Hnij. inversion Hnij. now rewrite length_map.
Qed.

Lemma tic_normalization_accepts_intensities_witness :
  let data := mk_ndarray 3 [[1; 2; 3]; [4; 5; 6]]%Q in
  let list_set := fun _ : list string => ["b"; "a"]%string in
  let aa_intensities := [[[5]; [4; 6]]; [[2]; [1; 3]]]%Q in
  result (get_intensities_data_structure
            list_set data ["a"; "b"; "a"]%string [-1; 0])
  = Returns aa_intensities
  /\ exists normalized,
      result (get_tic_normalized_amino_acid_values
                10 list_set data ["a"; "b"; "a"]%string aa_intensities)
      = Returns normalized
      /\ Forall2 (Forall2 (fun (raw : list Q) (values : list (option Q)) =>
                             List.length values = List.length raw))
                 aa_intensities normalized.
Proof.
  intros data list_set aa_intensities.
  assert (H : result (get_intensities_data_structure
                        list_set data ["a"; "b"; "a"]%string [-1; 0])
              = Returns aa_intensities) by reflexivity.
  split; [exact H | ].
  exact (tic_normalization_accepts_intensities
           10 list_set data ["a"; "b"; "a"]%string [-1; 0] aa_intensities H).
Defined.


(** ** [get_combat_normalized_amino_acid_values] *)

Lemma unique_cols_length (sharp : string) (colnames : list string) :
  List.length (unique_cols sharp colnames) = List.length colnames.
Proof. unfold unique_cols. now rewrite length_map, length_seq. Qed.

(** The arguments of [combat] when the assignments of labels pass. *)
Lemma combat_arguments_explicit
      (sharp : string) (n : Z) (data : ndarray) (colnames : list string) :
  Z.to_nat (ncols data) = List.length colnames ->
  n <> 0 ->
  (0 < List.length colnames)%nat ->
  (3 * Z.to_nat (len colnames / n))%nat = List.length colnames ->
  combat_arguments sharp n data colnames =
  ret (mk_frame (range_index (len (rows data)))
                (map LStr (unique_cols sharp colnames)) (rows data),
       mk_series (map LStr (unique_cols sharp colnames)) (LStr "batch")
                 (triples (range (len colnames / n)))).
Proof.
  intros Hcols Hn Hpos Hthree. unfold combat_arguments. cbv zeta.
  fold (unique_cols sharp colnames).
  fold (triples (range (len colnames / n))).
  unfold set_columns at 1. unfold frame_of_ndarray.
  cbn [df_index df_columns df_values].
  rewrite range_index_length, length_map, unique_cols_length, Hcols.
  rewrite Nat.eqb_refl, bind_ret_l.
  unfold floordiv. replace (n =? 0) with false by (symmetry; now apply Z.eqb_neq).
  rewrite bind_ret_l.
  set (b := triples (range (len colnames / n))).
  assert (Hb : List.length b = List.length colnames).
  { subst b. unfold range. now rewrite triples_length. }
  assert (Hframe : frame_of_list b =
                   mk_frame (range_index (len b)) [LInt 0] (map (fun x => [x]) b)).
  { destruct b; [simpl in Hb; lia | reflexivity]. }
  change (flatten (map (fun i : Z => [i; i; i]) (range (len colnames / n))))
    with b.
  rewrite Hframe. unfold set_columns. cbn [df_index df_columns df_values List.length].
  rewrite Nat.eqb_refl, bind_ret_l.
  unfold set_index. cbn [df_index df_columns df_values].
  rewrite range_index_length, length_map, unique_cols_length.
  unfold len. rewrite Nat2Z.id, Hb, Nat.eqb_refl, bind_ret_l.
  unfold column. cbn [df_index df_columns df_values position label_eqb].
  rewrite String.eqb_refl, mapM_singletons, !bind_ret_l. reflexivity.
Qed.

Lemma combat_arguments_columns
      (sharp : string) (n : Z) (data : ndarray) (colnames : list string)
      (args : DataFrame Q * Series Z) :
  result (combat_arguments sharp n data colnames) = Returns args ->
  Z.to_nat (ncols data) = List.length colnames.
Proof.
  unfold combat_arguments. intros H.
  apply result_bind_returns in H as [frame [Hframe _]].
  unfold set_columns, frame_of_ndarray in Hframe.
  cbn [df_index df_columns df_values] in Hframe.
  rewrite range_index_length, !length_map, length_seq in Hframe.
  destruct (Nat.eqb_spec (Z.to_nat (ncols data)) (List.length colnames));
    [assumption | discriminate].
Qed.

(** X16.  [get_combat_normalized_amino_acid_values] reaches the call of
    [combat] exactly when [data] has one column for each name, there is
    at least one sample, and either the replicate count is 3 and the
    number of samples a multiple of 3, or the replicate count is 2 and
    there are 3 samples.  In every other case an exception is raised
    before the call. *)
Theorem combat_arguments_accepted_iff
        (sharp : string) (n : Z) (data : ndarray) (colnames : list string) :
  (exists args, result (combat_arguments sharp n data colnames) = Returns args)
  <-> (Z.to_nat (ncols data) = List.length colnames
       /\ 0 < len colnames
       /\ ((n = 3 /\ len colnames mod 3 = 0) \/ (n = 2 /\ len colnames = 3))).
Proof.
  split.
  - intros [[frame batch] H].
    pose proof (combat_arguments_columns _ _ _ _ _ H) as Hcols.
    destruct (combat_arguments_returns _ _ _ _ _ _ H)
      as [Hn [Hvalues [_ [Hlen Hne]]]].
    assert (Hpos : 0 < len colnames).
    { unfold len. destruct colnames; [congruence | simpl; lia]. }
    assert (Hthree : 3 * (len colnames / n) = len colnames).
    { rewrite Hvalues in Hlen. unfold range in Hlen.
      rewrite triples_length in Hlen. unfold len in *.
      set (groups := Z.of_nat (List.length colnames) / n) in *. lia. }
    split; [exact Hcols | split; [exact Hpos | ]].
    destruct (accepted_group_size n (len colnames) Hpos Hn Hthree)
      as [-> | [-> Hl]]; [left | right; now split].
    split; [reflexivity | ]. rewrite <- Hthree.
    rewrite Z.mul_comm. apply Z.mod_mul. discriminate.
  - intros [Hcols [Hpos Hgroups]].
    eexists. rewrite combat_arguments_explicit; [reflexivity | exact Hcols | | | ].
    + destruct Hgroups as [[-> _] | [-> _]]; discriminate.
    + unfold len in Hpos. lia.
    + unfold len in *. destruct Hgroups as [[-> Hmod] | [-> Hl]].
      * pose proof (Z.div_mod (Z.of_nat (List.length colnames)) 3) as Hd.
        rewrite Hmod in Hd.
        set (q := Z.of_nat (List.length colnames) / 3) in *. lia.
      * assert (List.length colnames = 3%nat) as -> by lia. reflexivity.
Qed.

Lemma combat_arguments_accepted_iff_witness :
  let data := mk_ndarray 4 [[1; 2; 3; 4]]%Q in
  let colnames := ["a"; "a"; "a"; "b"]%string in
  ~ (exists args, result (combat_arguments "#" 3 data colnames) = Returns args).
Proof.
  intros data colnames H.
  apply (proj1 (combat_arguments_accepted_iff "#" 3 data colnames)) in H.
  destruct H as [_ [_ [[_ H] | [H _]]]]; discriminate H.
Defined.

(** X15.  When the call of [combat] is reached, the frame it is given
    holds the rows of [data] under the column names
    [colnames[i] + sharp + str(i)], and the batch labels are a series
    named "batch" whose index is those same names, in the same order: a
    label and a column at one position belong to one sample. *)
Theorem combat_arguments_are_aligned
        (sharp : string) (n : Z) (data : ndarray) (colnames : list string)
        (frame : DataFrame Q) (batch : Series Z) :
  result (combat_arguments sharp n data colnames) = Returns (frame, batch) ->
  df_columns frame = map LStr (unique_cols sharp colnames)
  /\ s_index batch = df_columns frame
  /\ df_values frame = rows data
  /\ s_name batch = LStr "batch".
Proof.
  intros H.
  pose proof (combat_arguments_columns _ _ _ _ _ H) as Hcols.
  destruct (combat_arguments_returns _ _ _ _ _ _ H)
    as [Hn [Hvalues [_ [Hlen Hne]]]].
  rewrite combat_arguments_explicit in H; try assumption.
  - simpl in H. inversion H; subst frame batch. now repeat split.
  - destruct colnames; [congruence | simpl; lia].
  - rewrite Hvalues in Hlen. unfold range in Hlen.
    now rewrite triples_length in Hlen.
Qed.

Lemma combat_arguments_are_aligned_witness :
  let data := mk_ndarray 3 [[1; 2; 3]]%Q in
  exists frame batch,
    result (combat_arguments "#" 3 data ["a"; "a"; "a"]%string)
    = Returns (frame, batch)
    /\ df_columns frame = map LStr ["a#0"; "a#1"; "a#2"]%string
    /\ s_index batch = df_columns frame.
Proof.
  intros data.
  refine (ex_intro _ _ (ex_intro _ _ _)).
  assert (Hret : result (combat_arguments "#" 3 data ["a"; "a"; "a"]%string)
                 = Returns
                     (mk_frame [LInt 0] (map LStr ["a#0"; "a#1"; "a#2"]%string)
                               [[1; 2; 3]]%Q,
                      mk_series (map LStr ["a#0"; "a#1"; "a#2"]%string)
                                (LStr "batch") [0; 0; 0])) by reflexivity.
  split; [exact Hret | ].
  destruct (combat_arguments_are_aligned "#" 3 data ["a"; "a"; "a"]%string _ _ Hret)
    as [Hc [Hi _]].
  split; [exact Hc | exact Hi].
Defined.

Lemma list_ascii_of_string_app (a b : string) :
  list_ascii_of_string (a ++ b) =
  (list_ascii_of_string a ++ list_ascii_of_string b)%list.
Proof. induction a as [ | c a IH]; simpl; [reflexivity | now rewrite IH]. Qed.

Lemma list_ascii_of_string_inj (a b : string) :
  list_ascii_of_string a = list_ascii_of_string b -> a = b.
Proof.
  intros H. rewrite <- (string_of_list_ascii_of_string a),
              <- (string_of_list_ascii_of_string b).
  now rewrite H.
Qed.

Lemma string_of_uint_digits (d : Decimal.uint) :
  Forall (fun c => is_digit c = true)
         (list_ascii_of_string (NilEmpty.string_of_uint d)).
Proof. induction d; simpl; constructor; auto. Qed.

Lemma str_inj (i j : nat) : str i = str j -> i = j.
Proof.
  unfold str. intros H.
  assert (Hu : Some (Nat.to_uint i) = Some (Nat.to_uint j)).
  { rewrite <- !NilEmpty.usu. now rewrite H. }
  inversion Hu as [Hd].
  rewrite <- (DecimalNat.Unsigned.of_to i), <- (DecimalNat.Unsigned.of_to j).
  now rewrite Hd.
Qed.

Lemma ends_with_non_digit_split (s : string) :
  ends_with_non_digit s = true ->
  exists u c, list_ascii_of_string s = (u ++ [c])%list /\ is_digit c = false.
Proof.
  induction s as [ | c s IH]; [discriminate | ].
  cbn [ends_with_non_digit]. destruct s as [ | c' s'].
  - intros H. exists [], c. split; [reflexivity | now apply negb_true_iff].
  - intros H. destruct (IH H) as [u [x [Hu Hx]]].
    exists (c :: u), x. split; [ | exact Hx].
    change (list_ascii_of_string (String c (String c' s')))
      with (c :: list_ascii_of_string (String c' s')).
    now rewrite Hu.
Qed.

Lemma before_first_occurrence {A} (c : A) (l1 : list A) :
  forall l2 r1 r2,
    (l1 ++ c :: r1 = l2 ++ c :: r2)%list -> ~ In c l1 -> ~ In c l2 -> l1 = l2.
Proof.
  induction l1 as [ | x l1 IH]; intros [ | y l2] r1 r2 H H1 H2.
  - reflexivity.
  - simpl in H. inversion H; subst. exfalso. apply H2. now left.
  - simpl in H. inversion H; subst. exfalso. apply H1. now left.
  - simpl in H. inversion H; subst. f_equal.
    apply (IH l2 r1 r2); auto.
    + intros Hin. apply H1. now right.
    + intros Hin. apply H2. now right.
Qed.

Lemma digits_after_last_non_digit (c : ascii) (x1 x2 d1 d2 : list ascii) :
  is_digit c = false ->
  Forall (fun a => is_digit a = true) d1 ->
  Forall (fun a => is_digit a = true) d2 ->
  ((x1 ++ [c]) ++ d1 = (x2 ++ [c]) ++ d2)%list -> d1 = d2.
Proof.
  intros Hc H1 H2 H.
  apply (f_equal (@rev ascii)) in H.
  rewrite !rev_app_distr in H. simpl in H.
  assert (Hnot : forall d, Forall (fun a => is_digit a = true) d -> ~ In c (rev d)).
  { intros d Hd Hin. apply in_rev in Hin.
    rewrite Forall_forall in Hd. specialize (Hd c Hin). congruence. }
  apply before_first_occurrence in H; auto.
  rewrite <- (rev_involutive d1), <- (rev_involutive d2). now rewrite H.
Qed.

(** X17.  When the delimiter ends with a character that is not a digit,
    the column names given to [combat] are pairwise distinct, whatever
    the names of the samples: line 90 does make the names unique. *)
Theorem unique_cols_are_distinct (sharp : string) (colnames : list string) :
  ends_with_non_digit sharp = true ->
  NoDup (unique_cols sharp colnames).
Proof.
  intros Hsharp. unfold unique_cols.
  apply NoDup_map_NoDup_ForallPairs; [ | apply seq_NoDup].
  intros i j _ _ H.
  destruct (ends_with_non_digit_split sharp Hsharp) as [u [c [Hu Hc]]].
  apply (f_equal list_ascii_of_string) in H.
  rewrite !list_ascii_of_string_app, Hu, !app_assoc in H.
  apply digits_after_last_non_digit in H; auto.
  - apply str_inj. now apply list_ascii_of_string_inj.
  - apply string_of_uint_digits.
  - apply string_of_uint_digits.
Qed.

Lemma unique_cols_are_distinct_witness :
  ends_with_non_digit "#" = true
  /\ NoDup (unique_cols "#" ["a"; "a1"; "a"; "a"]%string).
Proof.
  assert (H : ends_with_non_digit "#" = true) by reflexivity.
  split; [exact H | ].
  exact (unique_cols_are_distinct "#" ["a"; "a1"; "a"; "a"]%string H).
Defined.

(** ** The autoencoder: construction, shapes, parameters *)

Import Torch TorchInit.

Lemma linear_returns (l : Linear) (x : tensor) :
  Forall (fun row => List.length row = in_features l) x ->
  exists y,
    linear l x = ret y
    /\ List.length y = List.length x
    /\ Forall (fun row => List.length row
                          = Nat.min (List.length (weight l)) (List.length (bias l)))
              y.
Proof.
  unfold linear. induction 1 as [ | row x Hrow _ IH].
  - exists []. repeat split. constructor.
  - destruct IH as [y [Hy [Hlen Hall]]].
    eexists. rewrite mapM_cons.
    replace (Nat.eqb (List.length row) (in_features l)) with true
      by (symmetry; now apply Nat.eqb_eq).
    rewrite bind_ret_l, Hy, bind_ret_l.
    split; [reflexivity | split; [simpl; now rewrite Hlen | ]].
    constructor; [ | exact Hall].
    now rewrite length_map, length_combine.
Qed.

Lemma linear_raises (l : Linear) (x : tensor) :
  ~ Forall (fun row => List.length row = in_features l) x ->
  linear l x = raise RuntimeError.
Proof.
  unfold linear. induction x as [ | row x IH]; intros H.
  - exfalso. apply H. constructor.
  - rewrite mapM_cons.
    destruct (Nat.eqb_spec (List.length row) (in_features l)) as [E | E].
    + rewrite bind_ret_l, IH; [reflexivity | ].
      intros Hx. apply H. now constructor.
    + reflexivity.
Qed.

Lemma elementwise_shape (f : Q -> Q) (x : tensor) (k : nat) :
  Forall (fun row => List.length row = k) x ->
  List.length (elementwise f x) = List.length x
  /\ Forall (fun row => List.length row = k) (elementwise f x).
Proof.
  unfold elementwise. intros H. split; [apply length_map | ].
  induction H; simpl; constructor; auto. now rewrite length_map.
Qed.

Lemma Linear_new_shape (w : nat -> nat -> nat -> Q) (b : nat -> nat -> Q)
      (k in_f out_f : nat) :
  in_features (Linear_new w b k in_f out_f) = in_f
  /\ List.length (weight (Linear_new w b k in_f out_f)) = out_f
  /\ List.length (bias (Linear_new w b k in_f out_f)) = out_f
  /\ Forall (fun row => List.length row = in_f)
            (weight (Linear_new w b k in_f out_f)).
Proof.
  unfold Linear_new. cbn [in_features weight bias].
  rewrite !length_map, !length_seq. repeat split.
  apply Forall_forall. intros row Hrow.
  apply in_map_iff in Hrow as [o [<- _]].
  now rewrite length_map, length_seq.
Qed.

(** A layer applied to a batch of rows of its input size. *)
Lemma Linear_new_applies (w : nat -> nat -> nat -> Q) (b : nat -> nat -> Q)
      (k in_f out_f : nat) (x : tensor) :
  Forall (fun row => List.length row = in_f) x ->
  exists y,
    linear (Linear_new w b k in_f out_f) x = ret y
    /\ List.length y = List.length x
    /\ Forall (fun row => List.length row = out_f) y.
Proof.
  intros Hx.
  destruct (Linear_new_shape w b k in_f out_f) as [Hin [Hw [Hb _]]].
  destruct (linear_returns (Linear_new w b k in_f out_f) x) as [y [Hy [Hlen Hall]]].
  { now rewrite Hin. }
  exists y. split; [exact Hy | split; [exact Hlen | ]].
  rewrite Hw, Hb, Nat.min_id in Hall. exact Hall.
Qed.

Lemma AE_init_explicit (w : nat -> nat -> nat -> Q) (b : nat -> nat -> Q)
      (kwargs : list (string * nat)) (input_shape latent_dim : nat) :
  kwarg kwargs "input_shape" = ret input_shape ->
  kwarg kwargs "latent_dim" = ret latent_dim ->
  AE_init w b kwargs =
  ret (mk_AE (Linear_new w b 0 input_shape latent_dim)
             (Linear_new w b 1 latent_dim latent_dim)
             (Linear_new w b 2 latent_dim latent_dim)
             (Linear_new w b 3 latent_dim input_shape)).
Proof.
  intros Hi Hl. unfold AE_init. now rewrite !Hi, !Hl, !bind_ret_l.
Qed.

(** X18.  An autoencoder built by [AE.__init__] from the two sizes maps a
    batch of rows of [input_shape] features to a code of as many rows of
    [latent_dim] features, and [forward] gives back as many rows of
    [input_shape] features: on such a batch neither raises. *)
Theorem AE_shapes
        (exp : Q -> Q) (w : nat -> nat -> nat -> Q) (b : nat -> nat -> Q)
        (kwargs : list (string * nat)) (input_shape latent_dim : nat)
        (features : tensor) :
  kwarg kwargs "input_shape" = ret input_shape ->
  kwarg kwargs "latent_dim" = ret latent_dim ->
  Forall (fun row => List.length row = input_shape) features ->
  exists self encoded decoded,
    AE_init w b kwargs = ret self
    /\ encode exp self features = ret encoded
    /\ List.length encoded = List.length features
    /\ Forall (fun row => List.length row = latent_dim) encoded
    /\ forward exp self features = ret decoded
    /\ List.length decoded = List.length features
    /\ Forall (fun row => List.length row = input_shape) decoded.
Proof.
  intros Hi Hl Hx.
  destruct (Linear_new_applies w b 0 input_shape latent_dim features Hx)
    as [y1 [E1 [L1 S1]]].
  destruct (elementwise_shape
              (fun x => (Qmax 0 x + (1 # 100) * Qmin 0 x)%Q) y1 latent_dim S1)
    as [L1' S1'].
  fold (LeakyReLU y1) in L1', S1'.
  destruct (Linear_new_applies w b 1 latent_dim latent_dim (LeakyReLU y1) S1')
    as [y2 [E2 [L2 S2]]].
  destruct (elementwise_shape
              (fun x => (Qmax 0 x + Qmin 0 (1 * (exp (x / 1) - 1)))%Q)
              y2 latent_dim S2) as [L2' S2'].
  fold (CELU exp y2) in L2', S2'.
  destruct (Linear_new_applies w b 2 latent_dim latent_dim (CELU exp y2) S2')
    as [y3 [E3 [L3 S3]]].
  destruct (elementwise_shape
              (fun x => (Qmax 0 x + (1 # 100) * Qmin 0 x)%Q) y3 latent_dim S3)
    as [L3' S3'].
  fold (LeakyReLU y3) in L3', S3'.
  destruct (Linear_new_applies w b 3 latent_dim input_shape (LeakyReLU y3) S3')
    as [y4 [E4 [L4 S4]]].
  destruct (elementwise_shape
              (fun x => (Qmax 0 x + Qmin 0 (1 * (exp (x / 1) - 1)))%Q)
              y4 input_shape S4) as [L4' S4'].
  fold (CELU exp y4) in L4', S4'.
  exists (mk_AE (Linear_new w b 0 input_shape latent_dim)
                (Linear_new w b 1 latent_dim latent_dim)
                (Linear_new w b 2 latent_dim latent_dim)
                (Linear_new w b 3 latent_dim input_shape)),
         (CELU exp y2), (CELU exp y4).
  split; [now apply AE_init_explicit | ].
  unfold encode, forward. cbn [e1 e2 d1 d2].
  rewrite E1, !bind_ret_l, E2, !bind_ret_l, E3, !bind_ret_l, E4, !bind_ret_l.
  repeat split; try assumption; congruence.
Qed.

Lemma AE_shapes_witness :
  let kwargs := [("input_shape", 3%nat); ("latent_dim", 2%nat)]%string in
  let features := [[1; 2; 3]; [4; 5; 6]]%Q in
  exists self encoded decoded,
    AE_init (fun _ _ _ => 1%Q) (fun _ _ => 0%Q) kwargs = ret self
    /\ encode (fun x => x) self features = ret encoded
    /\ List.length encoded = List.length features
    /\ Forall (fun row => List.length row = 2%nat) encoded
    /\ forward (fun x => x) self features = ret decoded
    /\ List.length decoded = List.length features
    /\ Forall (fun row => List.length row = 3%nat) decoded.
Proof.
  intros kwargs features.
  apply (AE_shapes (fun x => x) (fun _ _ _ => 1%Q) (fun _ _ => 0%Q)
                   kwargs 3 2 features).
  - reflexivity.
  - reflexivity.
  - repeat constructor.
Defined.

(** X19.  Whatever the parameters of the network, a batch with a row
    that has not [in_features] values for its first layer makes [encode]
    and [forward] raise the shape error of [nn.Linear]; no part of the
    batch is returned. *)
Theorem AE_rejects_wrong_shape
        (exp : Q -> Q) (self : AE) (features : tensor) :
  ~ Forall (fun row => List.length row = in_features (e1 self)) features ->
  encode exp self features = raise RuntimeError
  /\ forward exp self features = raise RuntimeError.
Proof.
  intros H. unfold encode, forward.
  rewrite (linear_raises (e1 self) features H). now split.
Qed.

Lemma AE_rejects_wrong_shape_witness :
  let self := mk_AE (mk_linear 3 [[1; 1; 1]]%Q [0%Q]) (mk_linear 1 [[1%Q]] [0%Q])
                    (mk_linear 1 [[1%Q]] [0%Q])
                    (mk_linear 1 [[1]; [1]; [1]]%Q [0; 0; 0]%Q) in
  forward (fun x => x) self [[1; 2; 3]; [4; 5]]%Q = raise RuntimeError.
Proof.
  intros self.
  refine (proj2 (AE_rejects_wrong_shape (fun x => x) self [[1; 2; 3]; [4; 5]]%Q _)).
  intros H. inversion H as [ | ? ? _ H']. inversion H' as [ | ? ? Hrow _].
  discriminate Hrow.
Defined.

Lemma sum_constant (c : nat) (l : list nat) :
  (forall x, In x l -> x = c) ->
  forall a, fold_left Nat.add l a = (a + c * List.length l)%nat.
Proof.
  induction l as [ | x l IH]; intros H a; simpl; [lia | ].
  rewrite IH by (intros y Hy; apply H; now right).
  rewrite (H x (or_introl eq_refl)). lia.
Qed.

Lemma Linear_new_numel (w : nat -> nat -> nat -> Q) (b : nat -> nat -> Q)
      (k in_f out_f : nat) :
  numel (mk_parameter (Matrix (weight (Linear_new w b k in_f out_f))) true)
  = (out_f * in_f)%nat
  /\ numel (mk_parameter (Vector (bias (Linear_new w b k in_f out_f))) true)
     = out_f.
Proof.
  destruct (Linear_new_shape w b k in_f out_f) as [_ [Hw [Hb Hrows]]].
  unfold numel. cbn [p_data]. split; [ | exact Hb].
  rewrite (sum_constant in_f).
  - rewrite length_map, Hw. lia.
  - intros x Hx. apply in_map_iff in Hx as [row [<- Hrow]].
    rewrite Forall_forall in Hrows. now apply Hrows.
Qed.

(** X20.  The autoencoder built from [input_shape] and [latent_dim] has
    [2 * input_shape * latent_dim + 2 * latent_dim ** 2 + 3 * latent_dim
    + input_shape] parameters, all of them counted by
    [count_parameters]. *)
Theorem AE_count_parameters
        (w : nat -> nat -> nat -> Q) (b : nat -> nat -> Q)
        (kwargs : list (string * nat)) (input_shape latent_dim : nat) :
  kwarg kwargs "input_shape" = ret input_shape ->
  kwarg kwargs "latent_dim" = ret latent_dim ->
  exists self,
    AE_init w b kwargs = ret self
    /\ count_parameters self
       = (2 * input_shape * latent_dim + 2 * latent_dim * latent_dim
          + 3 * latent_dim + input_shape)%nat.
Proof.
  intros Hi Hl.
  exists (mk_AE (Linear_new w b 0 input_shape latent_dim)
                (Linear_new w b 1 latent_dim latent_dim)
                (Linear_new w b 2 latent_dim latent_dim)
                (Linear_new w b 3 latent_dim input_shape)).
  split; [now apply AE_init_explicit | ].
  unfold count_parameters, parameters.
  cbn [flat_map app filter requires_grad e1 e2 d1 d2 map fold_left].
  destruct (Linear_new_numel w b 0 input_shape latent_dim) as [-> ->].
  destruct (Linear_new_numel w b 1 latent_dim latent_dim) as [-> ->].
  destruct (Linear_new_numel w b 2 latent_dim latent_dim) as [-> ->].
  destruct (Linear_new_numel w b 3 latent_dim input_shape) as [-> ->].
  lia.
Qed.

Lemma AE_count_parameters_witness :
  exists self,
    AE_init (fun _ _ _ => 0%Q) (fun _ _ => 0%Q)
            [("input_shape", 170%nat); ("latent_dim", 100%nat)]%string = ret self
    /\ count_parameters self
       = (2 * 170 * 100 + 2 * 100 * 100 + 3 * 100 + 170)%nat.
Proof.
  apply (AE_count_parameters (fun _ _ _ => 0%Q) (fun _ _ => 0%Q)
           [("input_shape", 170%nat); ("latent_dim", 100%nat)]%string 170 100);
    reflexivity.
Defined.

Lemma kwarg_missing (kwargs : list (string * nat)) (key : string) :
  (forall v, ~ In (key, v) kwargs) -> kwarg kwargs key = raise KeyError.
Proof.
  induction kwargs as [ | [k v] kwargs IH]; intros H; [reflexivity | ].
  cbn [kwarg]. destruct (String.eqb_spec k key) as [-> | Hk].
  - exfalso. apply (H v). now left.
  - apply IH. intros v' Hv'. apply (H v'). now right.
Qed.

Lemma kwarg_cases (kwargs : list (string * nat)) (key : string) :
  kwarg kwargs key = raise KeyError
  \/ exists v, kwarg kwargs key = ret v /\ In (key, v) kwargs.
Proof.
  induction kwargs as [ | [k v] kwargs IH]; [now left | ].
  cbn [kwarg]. destruct (String.eqb_spec k key) as [-> | Hk].
  - right. exists v. split; [reflexivity | now left].
  - destruct IH as [IH | [v' [IH Hin]]]; [now left | right].
    exists v'. split; [exact IH | now right].
Qed.

(** X21.  [AE.__init__] reads both sizes from its keyword arguments
    before it builds any layer: when "input_shape" or "latent_dim" is
    missing it raises [KeyError] and no network is built. *)
Theorem AE_init_missing_size
        (w : nat -> nat -> nat -> Q) (b : nat -> nat -> Q)
        (kwargs : list (string * nat)) :
  (forall v, ~ In ("input_shape"%string, v) kwargs)
  \/ (forall v, ~ In ("latent_dim"%string, v) kwargs) ->
  AE_init w b kwargs = raise KeyError.
Proof.
  intros H. unfold AE_init.
  destruct (kwarg_cases kwargs "input_shape") as [E | [i [E Hi]]]; rewrite E.
  - reflexivity.
  - destruct H as [H | H]; [exfalso; exact (H i Hi) | ].
    rewrite bind_ret_l, (kwarg_missing kwargs "latent_dim" H). reflexivity.
Qed.

Lemma AE_init_missing_size_witness :
  AE_init (fun _ _ _ => 0%Q) (fun _ _ => 0%Q) [("input_shape", 170%nat)]%string
  = raise KeyError.
Proof.
  apply (AE_init_missing_size (fun _ _ _ => 0%Q) (fun _ _ => 0%Q)
                              [("input_shape", 170%nat)]%string).
  right. intros v [H | []]. discriminate H.
Defined.

(** ** The labels read by [get_all_data_from_h5] *)

Lemma drop_last_app (x : string) (c : ascii) :
  drop_last (x ++ String c EmptyString) = x.
Proof.
  induction x as [ | a x IH]; [reflexivity | ].
  change (String a x ++ String c EmptyString)%string
    with (String a (x ++ String c EmptyString)).
  cbn [drop_last]. rewrite IH.
  destruct x; reflexivity.
Qed.

Lemma no_quote_head (c : ascii) (s : string) :
  no_quote (String c s) = true -> c <> "'"%char /\ no_quote s = true.
Proof.
  cbn [no_quote]. intros H. apply andb_true_iff in H as [Hc Hs].
  split; [ | exact Hs]. intros ->. discriminate Hc.
Qed.

Lemma prefix_empty (s : string) : String.prefix "" s = true.
Proof. now destruct s. Qed.

Lemma prefix_cons (a b : ascii) (s1 s2 : string) :
  String.prefix (String a s1) (String b s2) =
  if ascii_dec a b then String.prefix s1 s2 else false.
Proof. reflexivity. Qed.

Lemma prefix_cons_empty (a : ascii) (s1 : string) :
  String.prefix (String a s1) "" = false.
Proof. reflexivity. Qed.

Lemma replace_from_skip (old new : string) (c : ascii) (s : string) (k : nat) :
  replace_from old new (String c s) (S k) = replace_from old new s k.
Proof. reflexivity. Qed.

Lemma replace_from_match (old new : string) (c : ascii) (s : string) :
  String.prefix old (String c s) = true ->
  replace_from old new (String c s) 0 =
  (new ++ replace_from old new s (String.length old - 1))%string.
Proof. intros H. cbn [replace_from]. now rewrite H. Qed.

Lemma replace_from_no_match (old new : string) (c : ascii) (s : string) :
  String.prefix old (String c s) = false ->
  replace_from old new (String c s) 0 = String c (replace_from old new s 0).
Proof. intros H. cbn [replace_from]. now rewrite H. Qed.

Lemma append_cons (c : ascii) (s t : string) :
  (String c s ++ t)%string = String c (s ++ t).
Proof. reflexivity. Qed.

(** A text without apostrophe that does not end with [b], followed by
    the closing apostrophe, holds no occurrence of [b']. *)
Lemma replace_b_quote_none (x : string) :
  no_quote x = true -> ends_with_b x = false ->
  replace_from "b'" "" (x ++ "'") 0 = (x ++ "'")%string.
Proof.
  induction x as [ | c x IH]; intros Hq Hb; [reflexivity | ].
  apply no_quote_head in Hq as [Hc Hq].
  rewrite append_cons, replace_from_no_match.
  - f_equal. apply IH; [exact Hq | ].
    destruct x; [reflexivity | exact Hb].
  - rewrite prefix_cons. destruct (ascii_dec "b" c) as [<- | Hne]; [ | reflexivity].
    destruct x as [ | c2 x'].
    + discriminate Hb.
    + apply no_quote_head in Hq as [Hc2 _].
      rewrite append_cons, prefix_cons.
      destruct (ascii_dec "'" c2); [congruence | reflexivity].
Qed.

(** X22.  A name without apostrophe that does not end with the letter
    [b] is recovered from its text [b'name']. *)
Theorem clean_label_recovers_name (name : string) :
  no_quote name = true ->
  ends_with_b name = false ->
  clean_label ("b'" ++ name ++ "'") = name.
Proof.
  intros Hq Hb. unfold clean_label, replace.
  rewrite !append_cons, replace_from_match.
  - change (String.length "b'" - 1)%nat with 1%nat.
    rewrite replace_from_skip. change ("" ++ name ++ "'")%string with (name ++ "'")%string.
    change (("" ++ replace_from "b'" "" (name ++ "'") 0)%string)
      with (replace_from "b'" "" (name ++ "'") 0).
    rewrite replace_b_quote_none by assumption.
    apply drop_last_app.
  - rewrite !prefix_cons. cbn. apply prefix_empty.
Qed.

Lemma clean_label_recovers_name_witness :
  no_quote "Glycine" = true
  /\ ends_with_b "Glycine" = false
  /\ clean_label "b'Glycine'" = "Glycine"%string.
Proof.
  assert (H1 : no_quote "Glycine" = true) by reflexivity.
  assert (H2 : ends_with_b "Glycine" = false) by reflexivity.
  split; [exact H1 | split; [exact H2 | ]].
  exact (clean_label_recovers_name "Glycine" H1 H2).
Defined.

Lemma replace_b_quote_at_end (y : string) :
  no_quote y = true -> replace_from "b'" "" (y ++ "b'") 0 = y.
Proof.
  induction y as [ | c y IH]; intros Hq; [reflexivity | ].
  apply no_quote_head in Hq as [Hc Hq].
  rewrite append_cons, replace_from_no_match.
  - f_equal. now apply IH.
  - rewrite prefix_cons. destruct (ascii_dec "b" c) as [<- | Hne]; [ | reflexivity].
    destruct y as [ | c2 y'].
    + reflexivity.
    + apply no_quote_head in Hq as [Hc2 _].
      rewrite append_cons, prefix_cons.
      destruct (ascii_dec "'" c2); [congruence | reflexivity].
Qed.

(** X23.  A name that ends with the letter [b] is not recovered: the
    final [b] and the closing apostrophe of its text are taken for an
    opening [b'] and removed, and the slice then removes one character
    more.  The name [prefix + "b"] is read as [prefix] without its last
    character. *)
Theorem clean_label_of_name_ending_with_b (prefix : string) :
  no_quote prefix = true ->
  clean_label ("b'" ++ (prefix ++ "b") ++ "'") = drop_last prefix.
Proof.
  intros Hq. unfold clean_label, replace.
  rewrite !append_cons, replace_from_match.
  - change (String.length "b'" - 1)%nat with 1%nat.
    rewrite replace_from_skip.
    change ("" ++ (prefix ++ "b") ++ "'")%string with ((prefix ++ "b") ++ "'")%string.
    change (("" ++ replace_from "b'" "" ((prefix ++ "b") ++ "'") 0)%string)
      with (replace_from "b'" "" ((prefix ++ "b") ++ "'") 0).
    replace ((prefix ++ "b") ++ "'")%string with (prefix ++ "b'")%string.
    + now rewrite replace_b_quote_at_end.
    + clear. induction prefix as [ | c p IH]; [reflexivity | ].
      rewrite !append_cons. now rewrite IH.
  - rewrite !prefix_cons. cbn. apply prefix_empty.
Qed.

Lemma clean_label_of_name_ending_with_b_witness :
  no_quote "Gli" = true
  /\ clean_label "b'Glib'" = "Gl"%string.
Proof.
  assert (H : no_quote "Gli" = true) by reflexivity.
  split; [exact H | ].
  exact (clean_label_of_name_ending_with_b "Gli" H).
Defined.

Lemma replace_b_quote_mz_none (d : string) :
  no_quote d = true ->
  replace_from "b'mz" "" (d ++ "'") 0 = (d ++ "'")%string.
Proof.
  induction d as [ | c d IH]; intros Hq; [reflexivity | ].
  apply no_quote_head in Hq as [Hc Hq].
  rewrite append_cons, replace_from_no_match.
  - f_equal. now apply IH.
  - rewrite prefix_cons. destruct (ascii_dec "b" c) as [<- | Hne]; [ | reflexivity].
    destruct d as [ | c2 d'].
    + reflexivity.
    + apply no_quote_head in Hq as [Hc2 _].
      rewrite append_cons, prefix_cons.
      destruct (ascii_dec "'" c2); [congruence | reflexivity].
Qed.

(** X24.  The text handed to [float] for a label [b'mz...'] whose number
    holds no apostrophe is that number, whatever its last character. *)
Theorem clean_mz_label_recovers_number (number : string) :
  no_quote number = true ->
  clean_mz_label ("b'mz" ++ number ++ "'") = number.
Proof.
  intros Hq. unfold clean_mz_label, replace.
  rewrite !append_cons, replace_from_match.
  - change (String.length "b'mz" - 1)%nat with 3%nat.
    rewrite !replace_from_skip.
    change ("" ++ number ++ "'")%string with (number ++ "'")%string.
    change (("" ++ replace_from "b'mz" "" (number ++ "'") 0)%string)
      with (replace_from "b'mz" "" (number ++ "'") 0).
    rewrite replace_b_quote_mz_none by assumption.
    apply drop_last_app.
  - rewrite !prefix_cons. cbn. apply prefix_empty.
Qed.

Lemma clean_mz_label_recovers_number_witness :
  no_quote "76.0393" = true
  /\ clean_mz_label "b'mz76.0393'" = "76.0393"%string.
Proof.
  assert (H : no_quote "76.0393" = true) by reflexivity.
  split; [exact H | ].
  exact (clean_mz_label_recovers_number "76.0393" H).
Defined.

(** ** From the indices found to the intensities *)

Lemma find_closest_returns_range (allowed : Q) (axis : list Q) (t : Q) (r : Z) :
  result (find_closest_ion_mz_index allowed axis t) = Returns r ->
  - len axis <= r < len axis.
Proof.
  intros H.
  destruct (find_closest_cases allowed axis t)
    as [[_ E] | [[_ [_ E]] | [Hne [Ht E]]]]; rewrite E in *; try discriminate.
  pose proof (scan_position_range axis t Hne) as Hc.
  destruct (choose_cases allowed
              (ppm (py_nth axis (scan_position axis t - 1)) t)
              (ppm (py_nth axis (scan_position axis t)) t)
              (scan_position axis t))
    as [[E' _] | [[E' _] | [E' _]]];
    rewrite E' in H; try discriminate; inversion H; lia.
Qed.

Lemma lookup_returns_range (allowed : Q) (ions_mzs : list Q)
      (ions_names : list string) (mz_axis : list Q) (name : string) (i : Z) :
  result (lookup allowed ions_mzs ions_names mz_axis name) = Returns i ->
  - len mz_axis <= i < len mz_axis.
Proof.
  unfold lookup. intros H.
  apply result_bind_returns in H as [aa_index [_ H]].
  apply result_bind_returns in H as [mz [_ H]].
  now apply find_closest_returns_range in H.
Qed.

Lemma aa_loop_indices (allowed : Q) (aa_info : Type) (ions_mzs : list Q)
      (ions_names : list string) (mz_axis : list Q)
      (todo : list (string * aa_info)) :
  forall acc1 acc2 idxs names,
    result (aa_loop allowed aa_info ions_mzs ions_names mz_axis todo acc1 acc2)
    = Returns (idxs, names) ->
    forall i, In i idxs ->
              In i acc1 \/ - len mz_axis <= i < len mz_axis.
Proof.
  induction todo as [ | [name info] todo IH]; intros acc1 acc2 idxs names H i Hi.
  - simpl in H. inversion H; subst. now left.
  - destruct (contains name ions_names) eqn:E.
    + rewrite aa_loop_present in H by assumption.
      apply result_bind_returns in H as [r [Hr H]].
      destruct (IH _ _ _ _ H i Hi) as [Hacc | Hrange]; [ | now right].
      apply in_app_or in Hacc as [Hacc | [<- | []]]; [now left | right].
      now apply lookup_returns_range in Hr.
    + rewrite aa_loop_absent in H by assumption.
      rewrite (result_bind _ _ tt) in H by reflexivity.
      exact (IH _ _ _ _ H i Hi).
Qed.

Lemma get_intensities_total
      (list_set : list string -> list string) (data : ndarray)
      (colnames : list string) (aa_mz_indices : list Z) :
  (forall i, In i aa_mz_indices -> - len (rows data) <= i < len (rows data)) ->
  len colnames <= ncols data ->
  exists aa_intensities,
    result (get_intensities_data_structure list_set data colnames aa_mz_indices)
    = Returns aa_intensities.
Proof.
  intros Hrows Hcols. unfold get_intensities_data_structure.
  apply mapM_total. intros mz_index Hin.
  apply mapM_total. intros id _.
  unfold nd_row_cols.
  destruct (index_error_only_getitem (rows data) mz_index) as [Hraise | [row Hrow]].
  - exfalso. specialize (Hrows mz_index Hin).
    unfold getitem, norm_index in Hraise.
    assert (Hj : 0 <= (if mz_index <? 0 then len (rows data) + mz_index else mz_index)
                 < len (rows data))
      by (destruct (Z.ltb_spec mz_index 0); lia).
    set (j := if mz_index <? 0 then len (rows data) + mz_index else mz_index) in *.
    replace ((0 <=? j) && (j <? len (rows data))) with true in Hraise
      by (symmetry; apply andb_true_iff; split;
          [apply Z.leb_le | apply Z.ltb_lt]; lia).
    destruct (nth_error (rows data) (Z.to_nat j)) eqn:En; [discriminate | ].
    apply nth_error_None in En. unfold len in Hj. lia.
  - rewrite (result_bind _ _ row Hrow), check_index_total, bind_ret_l.
    + eexists. reflexivity.
    + intros c Hc. apply np_where_nonneg in Hc. lia.
Qed.

(** X25.  The indices that [get_amino_acids_indices_in_data] returns can
    always be used on the data: when [data] has one row for each entry of
    the axis and a column for each name of [colnames],
    [get_intensities_data_structure] returns on them, with one entry for
    each name found. *)
Theorem found_indices_select_rows
        (allowed : Q) (aa_info : Type) (amino_acids : list (string * aa_info))
        (ions_mzs : list Q) (ions_names : list string) (mz_axis : list Q)
        (list_set : list string -> list string) (data : ndarray)
        (colnames : list string)
        (aa_mz_indices : list Z) (aa_names : list string) :
  result (get_amino_acids_indices_in_data
            allowed aa_info amino_acids ions_mzs ions_names mz_axis)
  = Returns (aa_mz_indices, aa_names) ->
  len (rows data) = len mz_axis ->
  len colnames <= ncols data ->
  exists aa_intensities,
    result (get_intensities_data_structure list_set data colnames aa_mz_indices)
    = Returns aa_intensities
    /\ List.length aa_intensities = List.length aa_names.
Proof.
  intros Hret Hrows Hcols.
  destruct (get_intensities_total list_set data colnames aa_mz_indices)
    as [aa_intensities Haa]; [ | exact Hcols | ].
  - intros i Hi. unfold get_amino_acids_indices_in_data in Hret.
    destruct (aa_loop_indices _ _ _ _ _ _ _ _ _ _ Hret i Hi) as [[] | H].
    now rewrite Hrows.
  - exists aa_intensities. split; [exact Haa | ].
    unfold get_intensities_data_structure in Haa.
    apply mapM_returns, Forall2_length_eq in Haa. rewrite <- Haa.
    unfold get_amino_acids_indices_in_data in Hret.
    destruct (aa_loop_returns _ _ _ _ _ _ _ _ _ _ Hret) as [Hn [Hl _]].
    rewrite Hl, Hn. simpl. now rewrite length_map.
Qed.

Lemma found_indices_select_rows_witness :
  let data := mk_ndarray 3 [[1; 2; 3]; [4; 5; 6]]%Q in
  let list_set := fun _ : list string => ["b"; "a"]%string in
  let amino_acids := [("ala", tt); ("gly", tt)]%string in
  result (get_amino_acids_indices_in_data
            10 unit amino_acids [200%Q] ["gly"%string] [100; 200]%Q)
  = Returns ([1], ["gly"%string])
  /\ exists aa_intensities,
      result (get_intensities_data_structure
                list_set data ["a"; "b"; "a"]%string [1])
      = Returns aa_intensities
      /\ List.length aa_intensities = List.length ["gly"%string].
Proof.
  intros data list_set amino_acids.
  assert (H : result (get_amino_acids_indices_in_data
                        10 unit amino_acids [200%Q] ["gly"%string] [100; 200]%Q)
              = Returns ([1], ["gly"%string])) by reflexivity.
  split; [exact H | ].
  apply (found_indices_select_rows
           10 unit amino_acids [200%Q] ["gly"%string] [100; 200]%Q
           list_set data ["a"; "b"; "a"]%string [1] ["gly"%string] H).
  - reflexivity.
  - vm_compute. discriminate.
Defined.

(** ** The normalisation in float64 *)



